(** * TabarekIPTV: the data-access core ([services/xtream.ts], [services/db.ts])

    A shallow embedding of the response cache, the retrying fetcher, the
    in-flight request registry and the progress store, followed by the
    properties of the specification that concern them.

    Conventions.  [Date.now()] is an explicit argument [now : Z]
    (milliseconds).  A promise is represented by the way it settles:
    [Ok v] for a fulfilled promise, [Throw e] for a rejected one.
    [localStorage] and the network are explicit arguments. *)

From Stdlib Require Import ZArith QArith Lia String List Bool.
From stdpp Require Import base gmap strings list pretty.
From Equations Require Import Equations.

Set Warnings "-register-all".

Local Open Scope string_scope.
Local Open Scope list_scope.
Local Open Scope Z_scope.

(** ** JavaScript values *)

(** A JavaScript [number]: a finite value, an infinity or [NaN].  Every
    finite double is a rational and the code only compares numbers and takes
    [Math.max], both of which are exact, so finite values are rationals. *)
Inductive number : Type :=
  | NaN
  | NegInfinity
  | Finite (q : Q)
  | Infinity.

Definition num (z : Z) : number := Finite (inject_Z z).

(** [Math.max(a, b)]: [NaN] if either argument is [NaN], else the larger. *)
Definition Math_max (a b : number) : number :=
  match a, b with
  | NaN, _ => NaN
  | _, NaN => NaN
  | Infinity, _ => Infinity
  | _, Infinity => Infinity
  | NegInfinity, x => x
  | x, NegInfinity => x
  | Finite p, Finite q => if Qle_bool p q then Finite q else Finite p
  end.

(** [x >= 0] on numbers ([NaN] compares false with everything). *)
Definition ge0 (x : number) : bool :=
  match x with
  | NaN => false
  | NegInfinity => false
  | Finite q => Qle_bool 0 q
  | Infinity => true
  end.

(** Values that occur at run time: what [JSON.parse] yields, plus
    [undefined] and the non-finite numbers, which only arise in memory. *)
Inductive JSV : Type :=
  | JUndefined
  | JNull
  | JBool (b : bool)
  | JNum (n : number)
  | JStr (s : string)
  | JArr (items : list JSV)
  | JObj (fields : list (string * JSV)).

(** What is thrown: an [Error] instance (with its [name] and [message]), or
    any other value. *)
Inductive Thrown : Type :=
  | ErrorObj (name message : string)
  | NonError (v : JSV).

(** The result of running a block that may throw, and of a settled promise. *)
Inductive Result (A : Type) : Type :=
  | Ok (a : A)
  | Throw (e : Thrown).
Arguments Ok {A} a.
Arguments Throw {A} e.

Definition bind {A B} (r : Result A) (k : A -> Result B) : Result B :=
  match r with
  | Ok a => k a
  | Throw e => Throw e
  end.

Notation "'let*' x ':=' r 'in' k" := (bind r (fun x => k))
  (at level 10, x name, r at level 100, k at level 200).

(** [try { body } catch (error) { handler }] *)
Definition try_catch {A} (body : Result A) (handler : Thrown -> Result A) : Result A :=
  match body with
  | Ok a => Ok a
  | Throw e => handler e
  end.

(** Truthiness, as tested by [if (v)], [!v] and [v && ...]. *)
Definition truthy (v : JSV) : bool :=
  match v with
  | JUndefined | JNull => false
  | JBool b => b
  | JNum NaN => false
  | JNum (Finite q) => negb (Qeq_bool q 0)
  | JNum _ => true
  | JStr s => negb (String.eqb s "")
  | JArr _ | JObj _ => true
  end.

Definition typeof (v : JSV) : string :=
  match v with
  | JUndefined => "undefined"
  | JNull => "object"
  | JBool _ => "boolean"
  | JNum _ => "number"
  | JStr _ => "string"
  | JArr _ | JObj _ => "object"
  end.

(** [v === s] for a string [s]. *)
Definition strict_eq_str (v : JSV) (s : string) : bool :=
  match v with
  | JStr s' => String.eqb s' s
  | _ => false
  end.

Fixpoint assoc (p : string) (fields : list (string * JSV)) : JSV :=
  match fields with
  | [] => JUndefined
  | (k, v) :: rest => if String.eqb k p then v else assoc p rest
  end.

(** [v.p] for a value that is neither [null] nor [undefined], and for the
    property names the code reads ([type], [id], [position], [duration],
    [timestamp]): no primitive or array has them. *)
Definition propOf (v : JSV) (p : string) : JSV :=
  match v with
  | JObj fields => assoc p fields
  | _ => JUndefined
  end.

(** [v.p] in general: a [TypeError] on [null] and [undefined]. *)
Definition getProp (v : JSV) (p : string) : Result JSV :=
  match v with
  | JUndefined | JNull =>
      Throw (ErrorObj "TypeError" "Cannot read properties of null or undefined")
  | _ => Ok (propOf v p)
  end.

(** [JSON.parse(JSON.stringify(v))] for an array or object [v]: [NaN] and the
    infinities are written as [null], [undefined] is written as [null] in an
    array and the property is left out in an object. *)
Fixpoint jsonClone (v : JSV) : JSV :=
  match v with
  | JUndefined => JNull
  | JNull => JNull
  | JBool b => JBool b
  | JNum (Finite q) => JNum (Finite q)
  | JNum _ => JNull
  | JStr s => JStr s
  | JArr items => JArr (List.map jsonClone items)
  | JObj fields =>
      JObj ((fix cloneFields (fs : list (string * JSV)) : list (string * JSV) :=
               match fs with
               | [] => []
               | (k, JUndefined) :: rest => cloneFields rest
               | (k, x) :: rest => (k, jsonClone x) :: cloneFields rest
               end) fields)
  end.

(** ** The response cache ([xtream.ts], lines 76-133 and 267-273) *)

Record CacheEntry : Type := mkCacheEntry {
  data : JSV;
  timestamp : Z;
  expiresAt : Z
}.

Inductive CacheKind : Type := epg | movieInfo | streams.

Definition CACHE_DURATION (k : CacheKind) : Z :=
  match k with
  | epg => 5 * 60 * 1000
  | movieInfo => 30 * 60 * 1000
  | streams => 10 * 60 * 1000
  end.

(** The string a [CacheKind] is at run time. *)
Definition kindName (k : CacheKind) : string :=
  match k with
  | epg => "epg"
  | movieInfo => "movieInfo"
  | streams => "streams"
  end.

(** [for (const [key, entry] of cache.entries()) if (P) cache.delete(key)]:
    a [Map] may be deleted from while it is iterated. *)
Definition deleteWhere (P : string -> CacheEntry -> bool)
    (cache : gmap string CacheEntry) : gmap string CacheEntry :=
  foldr (fun kv acc => if P kv.1 kv.2 then delete kv.1 acc else acc)
        cache (map_to_list cache).

Definition cleanCache (now : Z) (cache : gmap string CacheEntry) : gmap string CacheEntry :=
  deleteWhere (fun _ entry => bool_decide (expiresAt entry <= now)) cache.

(** Returns the value ([null] when there is none) and the cache after. *)
Definition cacheGet (key : string) (now : Z) (cache : gmap string CacheEntry)
    : JSV * gmap string CacheEntry :=
  match cache !! key with
  | None => (JNull, cache)
  | Some entry =>
      if bool_decide (expiresAt entry <= now)
      then (JNull, delete key cache)
      else (data entry, cache)
  end.

Definition cacheSet (key : string) (d : JSV) (duration : Z) (now : Z)
    (cache : gmap string CacheEntry) : gmap string CacheEntry :=
  <[key := {| data := d; timestamp := now; expiresAt := now + duration |}]> cache.

(** [key.startsWith(type)] *)
Definition startsWith (key prefix : string) : bool := String.prefix prefix key.

Definition clearCache (type : CacheKind) (cache : gmap string CacheEntry)
    : gmap string CacheEntry :=
  deleteWhere (fun key _ => startsWith key (kindName type)) cache.

(** ** The retrying fetcher ([xtream.ts], lines 88 and 135-162) *)

(** A request URL: the endpoint and the query parameters appended to it. *)
Record Url : Type := mkUrl {
  endpoint : string;
  searchParams : list (string * string)
}.

#[global] Instance Url_eq_dec : EqDecision Url.
Proof. solve_decision. Defined.

(** How [response.json()] settles. *)
Inductive Body : Type :=
  | BodyJson (v : JSV)
  | BodyFails (e : Thrown).

(** How one [fetch(url, ...)] settles: rejected, or fulfilled with a response. *)
Inductive Attempt : Type :=
  | Rejected (e : Thrown)
  | Responded (status : Z) (body : Body).

(** The network: how the attempt made with a given [retryCount] settles. *)
Definition Network : Type := Url -> nat -> Attempt.

(** What a fetch does that can be observed from outside. *)
Inductive Effect : Type :=
  | EFetch (url : Url)
  | ESleep (ms : Z).

(** Retry delays in milliseconds. *)
Definition retryDelays : list Z := [1000; 2000; 5000].

(** [response.ok] *)
Definition response_ok (status : Z) : bool := (200 <=? status) && (status <=? 299).

(** The [try] block of [fetchWithRetry]. *)
Definition tryFetch (a : Attempt) : Result JSV :=
  match a with
  | Rejected e => Throw e
  | Responded status body =>
      if negb (response_ok status)
      then Throw (ErrorObj "Error" ("HTTP error! status: " +:+ pretty status))
      else match body with
           | BodyJson v => Ok v
           | BodyFails e => Throw e
           end
  end.

(** [error instanceof Error && error.name === 'AbortError'] *)
Definition isAbortError (e : Thrown) : bool :=
  match e with
  | ErrorObj name _ => String.eqb name "AbortError"
  | NonError _ => false
  end.

Equations? fetchWithRetry (net : Network) (url : Url) (retryCount : nat)
    : list Effect * Result JSV
    by wf (length retryDelays - retryCount)%nat lt :=
  fetchWithRetry net url retryCount with tryFetch (net url retryCount) := {
    | Ok v => ([EFetch url], Ok v)
    | Throw error with isAbortError error := {
      | true => ([EFetch url], Throw error)
      | false with lt_dec retryCount (length retryDelays) := {
        | left _ =>
            let rest := fetchWithRetry net url (S retryCount) in
            (EFetch url :: ESleep (nth retryCount retryDelays 0) :: rest.1, rest.2)
        | right _ => ([EFetch url], Throw error) } } }.
Proof.
  lia.
Qed.

(** ** The provider client ([xtream.ts], lines 3-74, 82-99 and 180-256) *)

Record XtreamConfig : Type := mkConfig {
  baseUrl : string;
  username : string;
  password : string
}.

(** An argument of type [string | number]; numbers are taken to be integers
    below 2^53 in magnitude, which JavaScript holds exactly and prints in
    decimal. *)
Inductive ContentId : Type :=
  | IdStr (s : string)
  | IdNum (n : Z).

(** [`${id}`] and [id.toString()] *)
Definition idString (id : ContentId) : string :=
  match id with
  | IdStr s => s
  | IdNum n => pretty n
  end.

(** The declared shape of a response: the TypeScript interfaces, with a flag
    on the optional properties. *)
Inductive Shape : Type :=
  | TNumber
  | TString
  | TArray (elem : Shape)
  | TObject (props : list (string * bool * Shape)).

Fixpoint hasShape (t : Shape) (v : JSV) : bool :=
  match t, v with
  | TNumber, JNum _ => true
  | TString, JStr _ => true
  | TArray elem, JArr items => forallb (hasShape elem) items
  | TObject props, JObj fields =>
      (fix allProps (ps : list (string * bool * Shape)) : bool :=
         match ps with
         | [] => true
         | (name, optional, t') :: rest =>
             match assoc name fields with
             | JUndefined => optional
             | x => hasShape t' x
             end && allProps rest
         end) props
  | _, _ => false
  end.

Definition XtreamStream : Shape :=
  TObject [("num", false, TNumber); ("name", false, TString);
           ("stream_type", false, TString); ("stream_id", false, TNumber);
           ("stream_icon", false, TString); ("epg_channel_id", false, TString);
           ("added", false, TString); ("category_id", false, TString);
           ("custom_sid", false, TString); ("tv_archive", false, TNumber);
           ("direct_source", false, TString);
           ("tv_archive_duration", false, TNumber)].

Definition XtreamEPG : Shape :=
  TObject [("id", false, TNumber); ("epg_id", false, TString);
           ("title", false, TString); ("lang", false, TString);
           ("start", false, TString); ("end", false, TString);
           ("description", false, TString); ("channel_id", false, TString);
           ("start_timestamp", false, TNumber);
           ("stop_timestamp", false, TNumber)].

Definition XtreamMovieInfo : Shape :=
  TObject
    [("movie_data", false,
       TObject [("name", false, TString); ("stream_id", false, TNumber);
                ("stream_icon", false, TString); ("rating", false, TString);
                ("rating_5based", false, TNumber); ("added", false, TString);
                ("category_id", false, TString);
                ("container_extension", false, TString);
                ("custom_sid", false, TString);
                ("direct_source", false, TString)]);
     ("subtitle_tracks", true,
       TArray (TObject [("id", false, TString); ("language", false, TString);
                        ("url", false, TString)]));
     ("audio_tracks", true,
       TArray (TObject [("id", false, TString); ("language", false, TString);
                        ("name", false, TString)]))].

(** The handlers attached to the promise of a [fetchWithRetry] call. *)
Inductive Handlers : Type :=
  | StreamsHandlers (cacheKey pendingKey : string)
  | EpgHandlers (cacheKey : string)
  | MovieInfoHandlers (cacheKey : string).

(** A [fetchWithRetry] call that was started: its URL, what runs when it
    settles, and whether it has settled. *)
Record Request : Type := mkRequest {
  req_url : Url;
  req_handlers : Handlers;
  req_settled : bool
}.

(** The client's state.  A promise is named by the position of its request
    in [requests], which lists every upstream call in the order started. *)
Record XtreamService : Type := mkService {
  cache : gmap string CacheEntry;
  pendingRequests : gmap string nat;
  requests : list Request
}.

Definition newService : XtreamService :=
  {| cache := ∅; pendingRequests := ∅; requests := [] |}.

(** What an [async] method hands back before any suspension: a value (the
    promise is already fulfilled), an exception thrown before the first
    [await] (the promise is already rejected), or the promise of a request,
    whose outcome the caller will receive. *)
Inductive Returned : Type :=
  | Value (v : JSV)
  | Failed (e : Thrown)
  | Promise (p : nat).

(** [category_id || 'all'] *)
Definition categoryOrAll (category_id : option string) : string :=
  match category_id with
  | Some c => if truthy (JStr c) then c else "all"
  | None => "all"
  end.

Definition streamsKey (category_id : option string) : string :=
  "streams_" +:+ categoryOrAll category_id.

(** [`epg_${stream_id}_${limit}`]; the limit, like a numeric id, is taken to
    be an integer below 2^53 in magnitude. *)
Definition epgKey (stream_id : ContentId) (limit : Z) : string :=
  "epg_" +:+ idString stream_id +:+ "_" +:+ pretty limit.

Definition movieKey (movie_id : ContentId) : string :=
  "movie_" +:+ idString movie_id.

(** The continuation of a request: what the handlers do to the client when
    the [fetchWithRetry] promise [p] settles with [outcome] at time [now].
    Every caller holding [Promise p] then receives [outcome] (each [then]
    handler returns the data, the [catch] handler rethrows). *)
Definition settle (p : nat) (outcome : Result JSV) (now : Z) (svc : XtreamService)
    : XtreamService :=
  match requests svc !! p with
  | None => svc
  | Some r =>
      if req_settled r then svc
      else
        let requests1 :=
          <[p := mkRequest (req_url r) (req_handlers r) true]> (requests svc) in
        match req_handlers r, outcome with
        | StreamsHandlers cacheKey pendingKey, Ok d =>
            mkService (cacheSet cacheKey d (CACHE_DURATION streams) now (cache svc))
                      (delete pendingKey (pendingRequests svc)) requests1
        | StreamsHandlers cacheKey pendingKey, Throw _ =>
            mkService (cache svc) (delete pendingKey (pendingRequests svc)) requests1
        | EpgHandlers cacheKey, Ok d =>
            mkService (cacheSet cacheKey d (CACHE_DURATION epg) now (cache svc))
                      (pendingRequests svc) requests1
        | MovieInfoHandlers cacheKey, Ok d =>
            mkService (cacheSet cacheKey d (CACHE_DURATION movieInfo) now (cache svc))
                      (pendingRequests svc) requests1
        | _, Throw _ =>
            mkService (cache svc) (pendingRequests svc) requests1
        end
  end.

(** The upstream calls for [url] that are in flight. *)
Definition inFlight (url : Url) (svc : XtreamService) : list Request :=
  List.filter
    (fun r => negb (req_settled r) && bool_decide (req_url r = url))
    (requests svc).

(** The fetch-backed operations. *)
Inductive Method : Type :=
  | LiveStreams (category_id : option string)
  | EPG (stream_id : ContentId) (limit : Z)
  | MovieInfo (movie_id : ContentId).

Definition methodKey (m : Method) : string :=
  match m with
  | LiveStreams category_id => streamsKey category_id
  | EPG stream_id limit => epgKey stream_id limit
  | MovieInfo movie_id => movieKey movie_id
  end.

(** The return type each method declares. *)
Definition declaredShape (m : Method) : Shape :=
  match m with
  | LiveStreams _ => TArray XtreamStream
  | EPG _ _ => TArray XtreamEPG
  | MovieInfo _ => XtreamMovieInfo
  end.

(** What the single caller of a method receives in the end. *)
Definition received (r : option (list Effect * Result JSV * XtreamService))
    : option (Result JSV) :=
  match r with
  | Some (_, outcome, _) => Some outcome
  | None => None
  end.

Section Client.

(** The URL parser of the platform, left open: whether [new URL(s)] accepts
    the string [s].  It refuses every string that is not an absolute URL,
    the empty base URL the singleton defaults to included. *)
Variable urlParses : string -> bool.

(** [new URL(s)]: the URL object, or a [TypeError]. *)
Definition newURL (s : string) : Result Url :=
  if urlParses s then Ok (mkUrl s [])
  else Throw (ErrorObj "TypeError" "Invalid URL").

(** [new URL(`${baseUrl}/player_api.php`)] followed by the calls of
    [url.searchParams.append] that the three methods share and those for
    [params]. *)
Definition apiUrl (config : XtreamConfig) (action : string)
    (params : list (string * string)) : Result Url :=
  let* url := newURL (baseUrl config +:+ "/player_api.php") in
  Ok {| endpoint := endpoint url;
        searchParams := searchParams url ++
                        [("username", username config);
                         ("password", password config);
                         ("action", action)] ++ params |}.

Definition streamsUrl (config : XtreamConfig) (category_id : option string)
    : Result Url :=
  apiUrl config "get_live_streams"
    match category_id with
    | Some c => if truthy (JStr c) then [("category_id", c)] else []
    | None => []
    end.

Definition getLiveStreams (config : XtreamConfig) (category_id : option string)
    (now : Z) (svc : XtreamService) : Returned * XtreamService :=
  let cacheKey := streamsKey category_id in
  let (cached, cache1) := cacheGet cacheKey now (cache svc) in
  if truthy cached
  then (Value cached, mkService cache1 (pendingRequests svc) (requests svc))
  else
    let pendingKey := "pending_" +:+ cacheKey in
    match pendingRequests svc !! pendingKey with
    | Some pendingRequest =>
        (Promise pendingRequest, mkService cache1 (pendingRequests svc) (requests svc))
    | None =>
        match streamsUrl config category_id with
        | Throw e => (Failed e, mkService cache1 (pendingRequests svc) (requests svc))
        | Ok url =>
            let request := length (requests svc) in
            (Promise request,
             mkService cache1
               (<[pendingKey := request]> (pendingRequests svc))
               (requests svc ++
                  [mkRequest url (StreamsHandlers cacheKey pendingKey) false]))
        end
    end.

Definition epgUrl (config : XtreamConfig) (stream_id : ContentId) (limit : Z)
    : Result Url :=
  apiUrl config "get_epg"
    [("stream_id", idString stream_id); ("limit", pretty limit)].

Definition getEPG (config : XtreamConfig) (stream_id : ContentId) (limit : Z)
    (now : Z) (svc : XtreamService) : Returned * XtreamService :=
  let cacheKey := epgKey stream_id limit in
  let (cached, cache1) := cacheGet cacheKey now (cache svc) in
  if truthy cached
  then (Value cached, mkService cache1 (pendingRequests svc) (requests svc))
  else
    match epgUrl config stream_id limit with
    | Throw e => (Failed e, mkService cache1 (pendingRequests svc) (requests svc))
    | Ok url =>
        (Promise (length (requests svc)),
         mkService cache1 (pendingRequests svc)
           (requests svc ++ [mkRequest url (EpgHandlers cacheKey) false]))
    end.

Definition movieUrl (config : XtreamConfig) (movie_id : ContentId) : Result Url :=
  apiUrl config "get_movie_info" [("movie_id", idString movie_id)].

Definition getMovieInfo (config : XtreamConfig) (movie_id : ContentId)
    (now : Z) (svc : XtreamService) : Returned * XtreamService :=
  let cacheKey := movieKey movie_id in
  let (cached, cache1) := cacheGet cacheKey now (cache svc) in
  if truthy cached
  then (Value cached, mkService cache1 (pendingRequests svc) (requests svc))
  else
    match movieUrl config movie_id with
    | Throw e => (Failed e, mkService cache1 (pendingRequests svc) (requests svc))
    | Ok url =>
        (Promise (length (requests svc)),
         mkService cache1 (pendingRequests svc)
           (requests svc ++ [mkRequest url (MovieInfoHandlers cacheKey) false]))
    end.

Definition call (config : XtreamConfig) (m : Method) (now : Z) (svc : XtreamService)
    : Returned * XtreamService :=
  match m with
  | LiveStreams category_id => getLiveStreams config category_id now svc
  | EPG stream_id limit => getEPG config stream_id limit now svc
  | MovieInfo movie_id => getMovieInfo config movie_id now svc
  end.

Definition methodUrl (config : XtreamConfig) (m : Method) : Result Url :=
  match m with
  | LiveStreams category_id => streamsUrl config category_id
  | EPG stream_id limit => epgUrl config stream_id limit
  | MovieInfo movie_id => movieUrl config movie_id
  end.

(** One caller alone: the method is called at [now]; if it hands back a
    promise, the request behind it runs against [net] and settles at
    [later].  The result is the trace of the request, what the caller
    receives and the client afterwards ([None] if the promise is not one of
    the client's requests). *)
Definition callAndAwait (net : Network) (config : XtreamConfig) (m : Method)
    (now later : Z) (svc : XtreamService)
    : option (list Effect * Result JSV * XtreamService) :=
  match call config m now svc with
  | (Value v, svc1) => Some ([], Ok v, svc1)
  | (Failed e, svc1) => Some ([], Throw e, svc1)
  | (Promise p, svc1) =>
      match requests svc1 !! p with
      | Some r =>
          let run := fetchWithRetry net (req_url r) 0 in
          Some (run.1, run.2, settle p run.2 later svc1)
      | None => None
      end
  end.

(** Successive calls of [getLiveStreams] at the times [nows], nothing
    settling in between: what each caller is handed, and the client after. *)
Fixpoint getLiveStreamsEach (config : XtreamConfig) (category_id : option string)
    (nows : list Z) (svc : XtreamService) : list Returned * XtreamService :=
  match nows with
  | [] => ([], svc)
  | now :: rest =>
      let r := getLiveStreams config category_id now svc in
      let rs := getLiveStreamsEach config category_id rest r.2 in
      (r.1 :: rs.1, rs.2)
  end.

End Client.

(** A parser for the examples: it agrees with [new URL] on the strings the
    examples pass to it, accepting [http://h/player_api.php] and refusing
    [/player_api.php] and [h/player_api.php]; it refuses every other string. *)
Definition exampleParser (s : string) : bool := String.eqb s "http://h/player_api.php".

(** ** The progress store ([db.ts]) *)

(** The string stored under [STORAGE_KEY], identified with what
    [JSON.parse] makes of it: an exception, or a value. *)
Inductive StoredText : Type :=
  | NotJson
  | Json (v : JSV).

(** [localStorage], restricted to [STORAGE_KEY]: [None] when [getItem]
    returns [null]. *)
Definition LocalStorage : Type := option StoredText.

(** What the medium does to one operation: each access may throw. *)
Record Faults : Type := mkFaults {
  getItem_throws : option Thrown;
  setItem_throws : option Thrown;
  removeItem_throws : option Thrown
}.

Definition noFaults : Faults := mkFaults None None None.

Inductive ContentType : Type := movie | series.

Definition typeString (t : ContentType) : string :=
  match t with
  | movie => "movie"
  | series => "series"
  end.

Definition MAX_ENTRIES : nat := 100.

Definition getAll (f : Faults) (ls : LocalStorage) : list JSV :=
  match getItem_throws f with
  | Some _ => []
  | None =>
      match ls with
      | None => []
      | Some NotJson => []
      | Some (Json (JArr parsed)) => parsed
      | Some (Json _) => []
      end
  end.

(** [l.slice(-n)] *)
Definition sliceLast (n : nat) (l : list JSV) : list JSV :=
  drop (length l - n)%nat l.

(** The predicate [saveAll] filters with. *)
Definition validItem (item : JSV) : bool :=
  if truthy item then
    String.eqb (typeof (propOf item "id")) "string" &&
    String.eqb (typeof (propOf item "position")) "number" &&
    String.eqb (typeof (propOf item "duration")) "number" &&
    String.eqb (typeof (propOf item "timestamp")) "number" &&
    (strict_eq_str (propOf item "type") "movie" ||
     strict_eq_str (propOf item "type") "series")
  else false.

Definition saveAll (f : Faults) (d : JSV) (ls : LocalStorage)
    : Result unit * LocalStorage :=
  match d with
  | JArr items =>
      let trimmed := sliceLast MAX_ENTRIES items in
      let validated := List.filter validItem trimmed in
      match setItem_throws f with
      | Some e => (Throw e, ls)
      | None => (Ok tt, Some (Json (jsonClone (JArr validated))))
      end
  | _ => (Throw (ErrorObj "Error" "Invalid data format"), ls)
  end.

(** [item.type === type && item.id === id] *)
Definition sameKey (type : ContentType) (id : string) (item : JSV) : Result bool :=
  let* t := getProp item "type" in
  if strict_eq_str t (typeString type)
  then let* i := getProp item "id" in Ok (strict_eq_str i id)
  else Ok false.

Fixpoint findIndex (p : JSV -> Result bool) (l : list JSV) : Result (option nat) :=
  match l with
  | [] => Ok None
  | x :: rest =>
      let* b := p x in
      if b then Ok (Some 0%nat)
      else let* r := findIndex p rest in Ok (option_map S r)
  end.

Fixpoint find (p : JSV -> Result bool) (l : list JSV) : Result (option JSV) :=
  match l with
  | [] => Ok None
  | x :: rest =>
      let* b := p x in
      if b then Ok (Some x) else find p rest
  end.

Fixpoint filterR (p : JSV -> Result bool) (l : list JSV) : Result (list JSV) :=
  match l with
  | [] => Ok []
  | x :: rest =>
      let* b := p x in
      let* r := filterR p rest in
      Ok (if b then x :: r else r)
  end.

(** The object literal [saveProgress] pushes. *)
Definition newEntry (type : ContentType) (id : string) (position duration : number)
    (now : Z) : JSV :=
  JObj [("type", JStr (typeString type));
        ("id", JStr id);
        ("position", JNum (Math_max (num 0) position));
        ("duration", JNum (Math_max (num 0) duration));
        ("timestamp", JNum (num now))].

Definition saveProgress (f : Faults) (type : ContentType) (id : string)
    (position duration : JSV) (now : Z) (ls : LocalStorage)
    : Result unit * LocalStorage :=
  match position, duration with
  | JNum pos, JNum dur =>
      let d := getAll f ls in
      match findIndex (sameKey type id) d with
      | Throw e => (Throw e, ls)
      | Ok index =>
          let d1 := match index with
                    | Some i => delete i d
                    | None => d
                    end in
          saveAll f (JArr (d1 ++ [newEntry type id pos dur now])) ls
      end
  | _, _ => (Throw (ErrorObj "Error" "Invalid position or duration"), ls)
  end.

Definition clearProgress (f : Faults) (type : ContentType) (id : string)
    (ls : LocalStorage) : Result unit * LocalStorage :=
  if negb (truthy (JStr id))
  then (Throw (ErrorObj "Error" "Invalid ID"), ls)
  else
    match filterR (fun item => let* b := sameKey type id item in Ok (negb b))
                  (getAll f ls) with
    | Throw e => (Throw e, ls)
    | Ok filtered => saveAll f (JArr filtered) ls
    end.

Definition clearAll (f : Faults) (ls : LocalStorage) : Result unit * LocalStorage :=
  match removeItem_throws f with
  | Some e => (Throw e, ls)
  | None => (Ok tt, None)
  end.

Section Coercions.

(** The conversions of ECMAScript that the store relies on and that are
    left open: [Number(s)] for a string, [Number(o)] for an array or an
    object, and the floating-point test of [pruneOldEntries],
    [age <= maxAge && age >= 0] where [age = now - timestamp] and
    [maxAge = maxAgeDays * 24 * 60 * 60 * 1000]. *)
Variable StringToNumber : string -> number.
Variable ObjectToNumber : JSV -> number.
Variable ageInRange : Z -> number -> JSV -> bool.

(** The conversion [Math.max] applies to an argument. *)
Definition ToNumber (v : JSV) : number :=
  match v with
  | JUndefined => NaN
  | JNull => num 0
  | JBool b => if b then num 1 else num 0
  | JNum n => n
  | JStr s => StringToNumber s
  | JArr _ | JObj _ => ObjectToNumber v
  end.

Definition getProgress (f : Faults) (type : ContentType) (id : string)
    (ls : LocalStorage) : Result number :=
  try_catch
    (if negb (truthy (JStr id))
     then Throw (ErrorObj "Error" "Invalid ID")
     else
       let d := getAll f ls in
       let* entry := find (sameKey type id) d in
       Ok match entry with
          | Some e =>
              if truthy e
              then Math_max (num 0) (ToNumber (propOf e "position"))
              else num 0
          | None => num 0
          end)
    (fun _ => Ok (num 0)).

(** [maxAgeDays <= 0] *)
Definition le0 (x : number) : bool :=
  match x with
  | NaN => false
  | NegInfinity => true
  | Finite q => Qle_bool q 0
  | Infinity => false
  end.

Definition pruneOldEntries (f : Faults) (maxAgeDays : number) (now : Z)
    (ls : LocalStorage) : Result unit * LocalStorage :=
  if le0 maxAgeDays
  then (Throw (ErrorObj "Error" "Invalid maxAgeDays value"), ls)
  else
    match filterR (fun item => let* ts := getProp item "timestamp" in
                               Ok (ageInRange now maxAgeDays ts))
                  (getAll f ls) with
    | Throw e => (Throw e, ls)
    | Ok filtered => saveAll f (JArr filtered) ls
    end.

(** [XtreamService.saveWatchProgress] and [getWatchProgress]
    ([xtream.ts], lines 258-264). *)
Definition saveWatchProgress (f : Faults) (type : ContentType) (id : string)
    (position duration : JSV) (now : Z) (ls : LocalStorage)
    : Result unit * LocalStorage :=
  saveProgress f type id position duration now ls.

Definition getWatchProgress (f : Faults) (type : ContentType) (id : string)
    (ls : LocalStorage) : Result number :=
  getProgress f type id ls.

(** The operations that write the medium, and a history of them. *)
Inductive Op : Type :=
  | OpSave (f : Faults) (type : ContentType) (id : string)
           (position duration : JSV) (now : Z)
  | OpClear (f : Faults) (type : ContentType) (id : string)
  | OpClearAll (f : Faults)
  | OpPrune (f : Faults) (maxAgeDays : number) (now : Z).

Definition step (ls : LocalStorage) (op : Op) : LocalStorage :=
  match op with
  | OpSave f type id position duration now =>
      (saveProgress f type id position duration now ls).2
  | OpClear f type id => (clearProgress f type id ls).2
  | OpClearAll f => (clearAll f ls).2
  | OpPrune f maxAgeDays now => (pruneOldEntries f maxAgeDays now ls).2
  end.

(** The medium after a history, starting from an empty [localStorage]. *)
Definition history (ops : list Op) : LocalStorage := foldl step None ops.

End Coercions.

(** ** Cache histories *)

(** The operations that read or sweep the cache, with the time they run at. *)
Inductive CacheOp : Type :=
  | Lookup (key : string) (now : Z)
  | Sweep (now : Z).

Definition opTime (op : CacheOp) : Z :=
  match op with
  | Lookup _ now => now
  | Sweep now => now
  end.

Definition cacheStep (c : gmap string CacheEntry) (op : CacheOp)
    : gmap string CacheEntry :=
  match op with
  | Lookup key now => (cacheGet key now c).2
  | Sweep now => cleanCache now c
  end.

(** The data kind whose entries a method caches. *)
Definition methodKind (m : Method) : CacheKind :=
  match m with
  | LiveStreams _ => streams
  | EPG _ _ => epg
  | MovieInfo _ => movieInfo
  end.

(** A failure that is a transport failure or a status outside 200-299. *)
Definition transientFailure (a : Attempt) : bool :=
  match a with
  | Rejected e => negb (isAbortError e)
  | Responded status _ => negb (response_ok status)
  end.

(** The number of [fetch] calls in a trace. *)
Definition attempts (trace : list Effect) : nat :=
  length (List.filter (fun ef => match ef with EFetch _ => true | ESleep _ => false end)
            trace).

(** ** Records of the progress store *)

(** The [(type, id)] pair of an item whose [type] and [id] are strings. *)
Definition keyOf (item : JSV) : option (string * string) :=
  match propOf item "type", propOf item "id" with
  | JStr t, JStr i => Some (t, i)
  | _, _ => None
  end.

(** The item is a record of [(type, id)]. *)
Definition hasKey (type : ContentType) (id : string) (item : JSV) : bool :=
  match keyOf item with
  | Some (t, i) => String.eqb t (typeString type) && String.eqb i id
  | None => false
  end.

(** What holds of the medium as the store leaves it: it is empty, or holds
    an array of records with at most one record for each [(type, id)]. *)
Definition storeInv (ls : LocalStorage) : Prop :=
  match ls with
  | None => True
  | Some (Json (JArr items)) =>
      Forall (fun x => is_Some (keyOf x)) items /\ NoDup (List.map keyOf items)
  | Some _ => False
  end.

(** ** More of the provider client ([xtream.ts], lines 164-178 and 246-256) *)

(** The sleeps of a trace, in order, and their sum. *)
Definition sleeps (trace : list Effect) : list Z :=
  omap (fun ef => match ef with ESleep ms => Some ms | EFetch _ => None end) trace.

Definition sleepTotal (trace : list Effect) : Z := foldr Z.add 0 (sleeps trace).

(** The URL [authenticate] builds as a string. *)
Definition loginUrl (config : XtreamConfig) : Url :=
  mkUrl (baseUrl config +:+ "/player_api.php?username=" +:+ username config +:+
         "&password=" +:+ password config) [].

(** [v === 1] *)
Definition strict_eq_one (v : JSV) : bool :=
  match v with
  | JNum (Finite q) => Qeq_bool q 1
  | _ => false
  end.

(** [authenticate]: the trace of its request, the boolean it fulfils with and
    [this.userInfo] afterwards.  Everything thrown inside, by the fetch or by
    reading [data.user_info] of [null], ends in the [catch] block. *)
Definition authenticate (net : Network) (config : XtreamConfig) (userInfo : JSV)
    : list Effect * bool * JSV :=
  let run := fetchWithRetry net (loginUrl config) 0 in
  match (let* d := run.2 in getProp d "user_info") with
  | Ok user_info =>
      if truthy user_info && strict_eq_one (propOf user_info "auth")
      then (run.1, true, user_info)
      else (run.1, false, userInfo)
  | Throw _ => (run.1, false, userInfo)
  end.

Definition getLiveStreamUrl (config : XtreamConfig) (stream_id : ContentId) : string :=
  baseUrl config +:+ "/live/" +:+ username config +:+ "/" +:+ password config +:+
  "/" +:+ idString stream_id.

Definition getMovieStreamUrl (config : XtreamConfig) (movie_id : ContentId) : string :=
  baseUrl config +:+ "/movie/" +:+ username config +:+ "/" +:+ password config +:+
  "/" +:+ idString movie_id.

Definition getSeriesStreamUrl (config : XtreamConfig) (series_id : ContentId) : string :=
  baseUrl config +:+ "/series/" +:+ username config +:+ "/" +:+ password config +:+
  "/" +:+ idString series_id.

(** The array the medium holds, as [getAll] reads it when nothing throws. *)
Definition stored (ls : LocalStorage) : list JSV := getAll noFaults ls.

(** ** Writes of the progress store *)

(** The faults an operation of a history runs under. *)
Definition opFaults (op : Op) : Faults :=
  match op with
  | OpSave f _ _ _ _ _ => f
  | OpClear f _ _ => f
  | OpClearAll f => f
  | OpPrune f _ _ => f
  end.

(** An operation of a history with the way its promise settles. *)
Definition perform (ageInRange : Z -> number -> JSV -> bool) (ls : LocalStorage)
    (op : Op) : Result unit * LocalStorage :=
  match op with
  | OpSave f type id position duration now =>
      saveProgress f type id position duration now ls
  | OpClear f type id => clearProgress f type id ls
  | OpClearAll f => clearAll f ls
  | OpPrune f maxAgeDays now => pruneOldEntries ageInRange f maxAgeDays now ls
  end.

(** ** Calls that start a request *)

(** The call of [m] at [now] finds no value to serve in the cache. *)
Definition missesCache (m : Method) (now : Z) (svc : XtreamService) : Prop :=
  truthy (cacheGet (methodKey m) now (cache svc)).1 = false.

(** No request that the call of [m] would join is registered. *)
Definition nothingPending (m : Method) (svc : XtreamService) : Prop :=
  match m with
  | LiveStreams category_id =>
      pendingRequests svc !! ("pending_" +:+ streamsKey category_id) = None
  | _ => True
  end.

(** The handlers a method attaches to its request. *)
Definition methodHandlers (m : Method) : Handlers :=
  match m with
  | LiveStreams c => StreamsHandlers (streamsKey c) ("pending_" +:+ streamsKey c)
  | EPG i l => EpgHandlers (epgKey i l)
  | MovieInfo i => MovieInfoHandlers (movieKey i)
  end.

(** * Properties *)

(** ** Response cache *)

Lemma lookup_foldr_delete (P : string -> CacheEntry -> bool)
    (l : list (string * CacheEntry)) (acc : gmap string CacheEntry) (k : string) :
  foldr (fun kv a => if P kv.1 kv.2 then delete kv.1 a else a) acc l !! k =
  if existsb (fun kv => bool_decide (kv.1 = k) && P kv.1 kv.2) l
  then None else acc !! k.
Proof.
  induction l as [|[k' e] l IH]; simpl; [done|].
  destruct (P k' e) eqn:HP.
  - destruct (decide (k' = k)) as [->|Hne].
    + rewrite lookup_delete_eq, bool_decide_eq_true_2 by done. done.
    + rewrite lookup_delete_ne, bool_decide_eq_false_2 by done. simpl. exact IH.
  - rewrite andb_false_r. simpl. exact IH.
Qed.

Lemma lookup_deleteWhere (P : string -> CacheEntry -> bool)
    (c : gmap string CacheEntry) (k : string) :
  deleteWhere P c !! k =
  match c !! k with
  | Some e => if P k e then None else Some e
  | None => None
  end.
Proof.
  unfold deleteWhere. rewrite lookup_foldr_delete.
  destruct (existsb _ _) eqn:Hex.
  - apply existsb_exists in Hex as [[k' e] [Hin Hp]]. simpl in Hp.
    apply andb_true_iff in Hp as [Hk HP]. apply bool_decide_eq_true in Hk. subst k'.
    apply list_elem_of_In, elem_of_map_to_list in Hin. rewrite Hin, HP. done.
  - destruct (c !! k) as [e|] eqn:Hc; [|done].
    destruct (P k e) eqn:HP; [|done].
    assert (existsb (fun kv => bool_decide (kv.1 = k) && P kv.1 kv.2)
              (map_to_list c) = true) as Habs; [|congruence].
    apply existsb_exists. exists (k, e). split.
    + apply list_elem_of_In, elem_of_map_to_list. done.
    + simpl. rewrite bool_decide_eq_true_2 by done. done.
Qed.

Lemma lookup_cleanCache (now : Z) (c : gmap string CacheEntry) (k : string) :
  cleanCache now c !! k =
  match c !! k with
  | Some e => if bool_decide (expiresAt e <= now) then None else Some e
  | None => None
  end.
Proof. apply lookup_deleteWhere. Qed.

Lemma cacheStep_keeps_fresh (c : gmap string CacheEntry) (op : CacheOp)
    (key : string) (e : CacheEntry) :
  c !! key = Some e -> opTime op < expiresAt e -> cacheStep c op !! key = Some e.
Proof.
  intros Hc Hlt. destruct op as [k now|now]; simpl in *.
  - unfold cacheGet. destruct (c !! k) as [e'|] eqn:Hk; [|done].
    case_bool_decide as Hexp; [|done]. simpl.
    destruct (decide (k = key)) as [->|Hne].
    + rewrite Hc in Hk. injection Hk as ->. lia.
    + rewrite lookup_delete_ne; done.
  - rewrite lookup_cleanCache, Hc. rewrite bool_decide_eq_false_2; [done|lia].
Qed.

Lemma cacheGet_fresh (c : gmap string CacheEntry) (key : string) (e : CacheEntry) (t : Z) :
  c !! key = Some e -> t < expiresAt e -> cacheGet key t c = (data e, c).
Proof.
  intros Hc Hlt. unfold cacheGet. rewrite Hc.
  rewrite bool_decide_eq_false_2; [done|lia].
Qed.

Lemma cacheStep_only_deletes (c : gmap string CacheEntry) (op : CacheOp) (k : string) :
  cacheStep c op !! k = c !! k \/ cacheStep c op !! k = None.
Proof.
  destruct op as [k' now|now]; simpl.
  - unfold cacheGet. destruct (c !! k') as [e|] eqn:Hk'; [|left; done].
    case_bool_decide; simpl; [|left; done].
    destruct (decide (k' = k)) as [->|Hne].
    + right. apply lookup_delete_eq.
    + left. apply lookup_delete_ne. done.
  - rewrite lookup_cleanCache. destruct (c !! k) as [e|]; [|left; done].
    case_bool_decide; [right|left]; done.
Qed.

Lemma cacheGet_expired_or_absent (c : gmap string CacheEntry) (key : string)
    (e : CacheEntry) (t : Z) :
  c !! key = Some e \/ c !! key = None -> expiresAt e <= t ->
  (cacheGet key t c).1 = JNull /\ (cacheGet key t c).2 !! key = None.
Proof.
  intros [Hc|Hc] Ht; unfold cacheGet; rewrite Hc; simpl; [|done].
  rewrite bool_decide_eq_true_2 by exact Ht. simpl.
  split; [reflexivity | apply lookup_delete_eq].
Qed.

(** C5.  A value stored with [cacheSet key d T] at time [t0] is what every
    lookup of [key] before [t0 + T] returns, also after any number of earlier
    lookups and sweeps, and such a lookup leaves the cache as it is; a lookup
    at or after [t0 + T] returns [null] and leaves no entry for [key], also
    after any lookups and sweeps; and the sweep deletes exactly the entries
    with [expiresAt <= now], the test the lookup applies. *)
Theorem cache_ttl (key : string) (d : JSV) (T t0 t : Z)
    (c : gmap string CacheEntry) (ops : list CacheOp) :
  let c0 := cacheSet key d T t0 c in
  let c1 := foldl cacheStep c0 ops in
  (Forall (fun op => opTime op < t0 + T) ops -> t < t0 + T ->
     cacheGet key t c1 = (d, c1)) /\
  (t0 + T <= t ->
     cacheGet key t c0 = (JNull, delete key c0) /\
     (cacheGet key t c1).1 = JNull /\ (cacheGet key t c1).2 !! key = None) /\
  (forall k,
     cleanCache t c !! k =
     match c !! k with
     | Some e => if bool_decide (expiresAt e <= t) then None else Some e
     | None => None
     end) /\
  (forall k e,
     c !! k = Some e ->
     (cacheGet k t c).2 !! k = cleanCache t c !! k).
Proof.
  intros c0 c1.
  set (e := {| data := d; timestamp := t0; expiresAt := t0 + T |}).
  assert (c0 !! key = Some e) as H0 by apply lookup_insert_eq.
  split; [|split; [|split]].
  - intros Hops Ht.
    assert (c1 !! key = Some e) as Hc1.
    { subst c1. clearbody c0. revert c0 H0.
      induction Hops as [|op ops Hop Hops IH]; intros c0 H0; simpl; [done|].
      apply IH. apply cacheStep_keeps_fresh; done. }
    apply (cacheGet_fresh c1 key e t Hc1). simpl. lia.
  - intros Ht. split.
    + unfold cacheGet. rewrite H0. simpl.
      rewrite bool_decide_eq_true_2; [done|lia].
    + apply (cacheGet_expired_or_absent c1 key e t); [|simpl; lia].
      subst c1.
      assert (c0 !! key = Some e \/ c0 !! key = None) as H0' by (left; done).
      clearbody c0. clear H0. revert c0 H0'.
      induction ops as [|op ops IH]; intros c0 H0; simpl; [done|].
      apply IH. destruct (cacheStep_only_deletes c0 op key) as [-> | ->]; auto.
  - intros k. apply lookup_cleanCache.
  - intros k e' Hk. rewrite lookup_cleanCache. unfold cacheGet. rewrite Hk.
    case_bool_decide; simpl; [apply lookup_delete_eq|done].
Qed.

Lemma cache_ttl_witness :
  cacheGet "epg_7_24" 299999
    (foldl cacheStep (cacheSet "epg_7_24" (JArr []) 300000 0 ∅)
       [Lookup "epg_7_24" 10; Sweep 200000]) =
  (JArr [], foldl cacheStep (cacheSet "epg_7_24" (JArr []) 300000 0 ∅)
              [Lookup "epg_7_24" 10; Sweep 200000]).
Proof.
  refine (proj1 (cache_ttl "epg_7_24" (JArr []) 300000 0 299999 ∅
                   [Lookup "epg_7_24" 10; Sweep 200000]) _ _).
  - repeat constructor.
  - lia.
Defined.

(** ** [clearCache] *)

Lemma lookup_clearCache (type : CacheKind) (c : gmap string CacheEntry) (k : string) :
  clearCache type c !! k =
  if startsWith k (kindName type) then None else c !! k.
Proof.
  unfold clearCache. rewrite lookup_deleteWhere.
  destruct (c !! k); destruct (startsWith k (kindName type)); done.
Qed.

(** Which prefixes the keys of each kind have. *)
Lemma startsWith_methodKey (m : Method) (type : CacheKind) :
  startsWith (methodKey m) (kindName type) =
  match m, type with
  | LiveStreams _, streams => true
  | EPG _ _, epg => true
  | _, _ => false
  end.
Proof. destruct m, type; reflexivity. Qed.

(** [clearCache('epg')] and [clearCache('streams')] delete every entry of
    their kind. *)
Lemma clearCache_removes_kind (m : Method) (c : gmap string CacheEntry) :
  methodKind m <> movieInfo ->
  clearCache (methodKind m) c !! methodKey m = None.
Proof.
  intros Hk. rewrite lookup_clearCache, startsWith_methodKey.
  destruct m; simpl in *; congruence.
Qed.

(** Entries of another kind are left alone, for every kind cleared. *)
Lemma clearCache_keeps_other_kinds (m : Method) (type : CacheKind)
    (c : gmap string CacheEntry) :
  methodKind m <> type ->
  clearCache type c !! methodKey m = c !! methodKey m.
Proof.
  intros Hk. rewrite lookup_clearCache, startsWith_methodKey.
  destruct m, type; simpl in *; congruence.
Qed.

(** C4.  [clearCache('movieInfo')] deletes no movie-info entry: the keys
    [getMovieInfo] caches under start with [movie_], which does not start
    with [movieInfo].  With the base URL [http://h], an entry cached by
    [getMovieInfo] is still served from the cache after
    [clearCache('movieInfo')]. *)
Theorem clearCache_movieInfo_keeps_movie_entries
    (movie_id : ContentId) (c : gmap string CacheEntry) :
  clearCache movieInfo c !! movieKey movie_id = c !! movieKey movie_id /\
  (let first :=
     getMovieInfo exampleParser (mkConfig "http://h" "u" "p") (IdNum 42) 0 newService in
   let svc := settle 0 (Ok (JObj [("movie_data", JObj [])])) 10 first.2 in
   let cleared := mkService (clearCache movieInfo (cache svc))
                    (pendingRequests svc) (requests svc) in
   first.1 = Promise 0 /\
   (getMovieInfo exampleParser (mkConfig "http://h" "u" "p") (IdNum 42) 20 cleared).1 =
   Value (JObj [("movie_data", JObj [])])).
Proof.
  split.
  - rewrite lookup_clearCache. reflexivity.
  - vm_compute. split; reflexivity.
Qed.

(** ** The retrying fetcher *)

Lemma fetchWithRetry_ok (net : Network) (url : Url) (k : nat) (v : JSV) :
  tryFetch (net url k) = Ok v ->
  fetchWithRetry net url k = ([EFetch url], Ok v).
Proof. intros H. rewrite fetchWithRetry_equation_1, H. reflexivity. Qed.

Lemma fetchWithRetry_abort (net : Network) (url : Url) (k : nat) (e : Thrown) :
  tryFetch (net url k) = Throw e -> isAbortError e = true ->
  fetchWithRetry net url k = ([EFetch url], Throw e).
Proof.
  intros H Ha. rewrite fetchWithRetry_equation_1, H. simpl. rewrite Ha. reflexivity.
Qed.

Lemma fetchWithRetry_retry (net : Network) (url : Url) (k : nat) (e : Thrown) :
  tryFetch (net url k) = Throw e -> isAbortError e = false ->
  (k < length retryDelays)%nat ->
  fetchWithRetry net url k =
  (EFetch url :: ESleep (nth k retryDelays 0) :: (fetchWithRetry net url (S k)).1,
   (fetchWithRetry net url (S k)).2).
Proof.
  intros H Ha Hk. rewrite fetchWithRetry_equation_1, H. simpl. rewrite Ha. simpl.
  destruct (lt_dec k _); [reflexivity | simpl in *; lia].
Qed.

Lemma fetchWithRetry_give_up (net : Network) (url : Url) (k : nat) (e : Thrown) :
  tryFetch (net url k) = Throw e -> isAbortError e = false ->
  ~ (k < length retryDelays)%nat ->
  fetchWithRetry net url k = ([EFetch url], Throw e).
Proof.
  intros H Ha Hk. rewrite fetchWithRetry_equation_1, H. simpl. rewrite Ha. simpl.
  destruct (lt_dec k _); [simpl in *; lia | reflexivity].
Qed.

(** A run in which the four attempts all fail, none by cancellation. *)
Lemma fetchWithRetry_exhausts (net : Network) (url : Url) (e0 e1 e2 e3 : Thrown) :
  tryFetch (net url 0%nat) = Throw e0 -> isAbortError e0 = false ->
  tryFetch (net url 1%nat) = Throw e1 -> isAbortError e1 = false ->
  tryFetch (net url 2%nat) = Throw e2 -> isAbortError e2 = false ->
  tryFetch (net url 3%nat) = Throw e3 -> isAbortError e3 = false ->
  fetchWithRetry net url 0 =
  ([EFetch url; ESleep 1000; EFetch url; ESleep 2000;
    EFetch url; ESleep 5000; EFetch url], Throw e3).
Proof.
  intros H0 A0 H1 A1 H2 A2 H3 A3.
  rewrite (fetchWithRetry_retry net url 0 e0 H0 A0) by (simpl; lia).
  rewrite (fetchWithRetry_retry net url 1 e1 H1 A1) by (simpl; lia).
  rewrite (fetchWithRetry_retry net url 2 e2 H2 A2) by (simpl; lia).
  rewrite (fetchWithRetry_give_up net url 3 e3 H3 A3) by (simpl; lia).
  reflexivity.
Qed.

Lemma transientFailure_throws (a : Attempt) :
  transientFailure a = true ->
  exists e, tryFetch a = Throw e /\ isAbortError e = false.
Proof.
  destruct a as [e|status body]; simpl; intros H.
  - exists e. split; [reflexivity|]. destruct (isAbortError e); done.
  - rewrite H. eexists. split; reflexivity.
Qed.

(** C2.  If every attempt for [url] fails with a transport failure or a
    non-2xx status, [fetchWithRetry] makes four attempts, sleeps 1000, 2000
    and 5000 ms between them, and rejects with the error of the fourth. *)
Theorem fetchWithRetry_retry_budget (net : Network) (url : Url) :
  (forall k, transientFailure (net url k) = true) ->
  exists last,
    tryFetch (net url 3%nat) = Throw last /\
    fetchWithRetry net url 0 =
    ([EFetch url; ESleep 1000; EFetch url; ESleep 2000;
      EFetch url; ESleep 5000; EFetch url], Throw last) /\
    attempts (fetchWithRetry net url 0).1 = 4%nat.
Proof.
  intros Hall.
  destruct (transientFailure_throws _ (Hall 0%nat)) as (e0 & H0 & A0).
  destruct (transientFailure_throws _ (Hall 1%nat)) as (e1 & H1 & A1).
  destruct (transientFailure_throws _ (Hall 2%nat)) as (e2 & H2 & A2).
  destruct (transientFailure_throws _ (Hall 3%nat)) as (e3 & H3 & A3).
  exists e3. split; [exact H3|].
  rewrite (fetchWithRetry_exhausts net url e0 e1 e2 e3) by assumption.
  split; reflexivity.
Qed.

Lemma fetchWithRetry_retry_budget_witness :
  exists last,
    tryFetch (Responded 503 (BodyJson JNull)) = Throw last /\
    fetchWithRetry (fun _ _ => Responded 503 (BodyJson JNull)) (mkUrl "h" []) 0 =
    ([EFetch (mkUrl "h" []); ESleep 1000; EFetch (mkUrl "h" []); ESleep 2000;
      EFetch (mkUrl "h" []); ESleep 5000; EFetch (mkUrl "h" [])], Throw last) /\
    attempts (fetchWithRetry (fun _ _ => Responded 503 (BodyJson JNull))
                (mkUrl "h" []) 0).1 = 4%nat.
Proof.
  apply (fetchWithRetry_retry_budget (fun _ _ => Responded 503 (BodyJson JNull))
           (mkUrl "h" [])).
  intros k. reflexivity.
Defined.

(** C6.  Whatever the retry count, an attempt that fails with an
    [AbortError] ends the fetch: the promise rejects with that very error
    and the attempt is the last effect.  In particular a cancellation at the
    [k]-th retry, after [k] transient failures, yields the [AbortError]
    after [k + 1] attempts, not the error of a fourth attempt. *)
Theorem fetchWithRetry_cancellation (net : Network) (url : Url) (k : nat) (e : Thrown) :
  tryFetch (net url k) = Throw e ->
  isAbortError e = true ->
  fetchWithRetry net url k = ([EFetch url], Throw e) /\
  ((forall j, (j < k)%nat -> transientFailure (net url j) = true) ->
   (k <= length retryDelays)%nat ->
   (fetchWithRetry net url 0).2 = Throw e /\
   attempts (fetchWithRetry net url 0).1 = S k /\
   last (fetchWithRetry net url 0).1 = Some (EFetch url)).
Proof.
  intros H Ha. split; [apply fetchWithRetry_abort; assumption|].
  intros Hbefore Hk.
  assert (forall n i, (i + n = k)%nat ->
            (fetchWithRetry net url i).2 = Throw e /\
            attempts (fetchWithRetry net url i).1 = S n /\
            last (fetchWithRetry net url i).1 = Some (EFetch url)) as Hgen.
  { induction n as [|n IH]; intros i Hi.
    - assert (i = k) as -> by lia.
      rewrite (fetchWithRetry_abort net url k e H Ha). done.
    - destruct (transientFailure_throws _ (Hbefore i ltac:(lia))) as (ei & Hi1 & Hi2).
      rewrite (fetchWithRetry_retry net url i ei Hi1 Hi2) by lia.
      destruct (IH (S i) ltac:(lia)) as (IH1 & IH2 & IH3).
      simpl. split; [exact IH1|]. split.
      + unfold attempts in *. simpl. rewrite IH2. reflexivity.
      + destruct ((fetchWithRetry net url (S i)).1) eqn:Htr; [discriminate|].
        exact IH3. }
  apply (Hgen k 0%nat). lia.
Qed.

Lemma fetchWithRetry_cancellation_witness :
  fetchWithRetry
    (fun _ n => if Nat.eqb n 2 then Rejected (ErrorObj "AbortError" "aborted")
                else Rejected (ErrorObj "TypeError" "Failed to fetch"))
    (mkUrl "h" []) 2 =
  ([EFetch (mkUrl "h" [])], Throw (ErrorObj "AbortError" "aborted")).
Proof.
  refine (proj1 (fetchWithRetry_cancellation
            (fun _ n => if Nat.eqb n 2 then Rejected (ErrorObj "AbortError" "aborted")
                        else Rejected (ErrorObj "TypeError" "Failed to fetch"))
            (mkUrl "h" []) 2 (ErrorObj "AbortError" "aborted") _ _)); reflexivity.
Defined.

(** ** In-flight requests *)

Lemma apiUrl_parses (urlParses : string -> bool) (config : XtreamConfig)
    (action : string) (params : list (string * string)) :
  urlParses (baseUrl config +:+ "/player_api.php") = true ->
  apiUrl urlParses config action params =
  Ok (mkUrl (baseUrl config +:+ "/player_api.php")
        ([("username", username config); ("password", password config);
          ("action", action)] ++ params)).
Proof. intros H. unfold apiUrl, newURL. rewrite H. reflexivity. Qed.

Lemma methodUrl_parses (urlParses : string -> bool) (config : XtreamConfig) (m : Method) :
  urlParses (baseUrl config +:+ "/player_api.php") = true ->
  exists url, methodUrl urlParses config m = Ok url.
Proof.
  intros H. destruct m; simpl; unfold streamsUrl, epgUrl, movieUrl;
    rewrite apiUrl_parses by exact H; eexists; reflexivity.
Qed.

Lemma methodUrl_refused (urlParses : string -> bool) (config : XtreamConfig) (m : Method) :
  urlParses (baseUrl config +:+ "/player_api.php") = false ->
  methodUrl urlParses config m = Throw (ErrorObj "TypeError" "Invalid URL").
Proof.
  intros H. destruct m; simpl; unfold streamsUrl, epgUrl, movieUrl, apiUrl, newURL;
    rewrite H; reflexivity.
Qed.

(** The first caller of [getLiveStreams] on a miss starts a request and
    registers it. *)
Lemma getLiveStreams_starts (urlParses : string -> bool) (config : XtreamConfig)
    (category_id : option string) (now : Z) (svc : XtreamService) (url : Url) :
  streamsUrl urlParses config category_id = Ok url ->
  truthy (cacheGet (streamsKey category_id) now (cache svc)).1 = false ->
  pendingRequests svc !! ("pending_" +:+ streamsKey category_id) = None ->
  let r := getLiveStreams urlParses config category_id now svc in
  r.1 = Promise (length (requests svc)) /\
  pendingRequests r.2 !! ("pending_" +:+ streamsKey category_id) =
    Some (length (requests svc)) /\
  requests r.2 =
    requests svc ++ [mkRequest url
                       (StreamsHandlers (streamsKey category_id)
                          ("pending_" +:+ streamsKey category_id)) false].
Proof.
  intros Hurl Hmiss Hnone. unfold getLiveStreams.
  destruct (cacheGet _ now (cache svc)) as [cached cache1]. simpl in Hmiss.
  rewrite Hmiss, Hnone, Hurl. simpl. rewrite lookup_insert_eq. done.
Qed.

(** Every caller of [getLiveStreams] that finds the request registered
    receives its promise, and no upstream call is added. *)
Lemma getLiveStreams_joins (urlParses : string -> bool) (config : XtreamConfig)
    (category_id : option string) (now : Z) (svc : XtreamService) (p : nat) :
  truthy (cacheGet (streamsKey category_id) now (cache svc)).1 = false ->
  pendingRequests svc !! ("pending_" +:+ streamsKey category_id) = Some p ->
  let r := getLiveStreams urlParses config category_id now svc in
  r.1 = Promise p /\
  pendingRequests r.2 = pendingRequests svc /\
  requests r.2 = requests svc.
Proof.
  intros Hmiss Hsome. unfold getLiveStreams.
  destruct (cacheGet _ now (cache svc)) as [cached cache1]. simpl in Hmiss.
  rewrite Hmiss, Hsome. done.
Qed.

(** C1.  [getEPG] and [getMovieInfo] never consult [pendingRequests]: with a
    base URL that parses, two callers of the same operation on an empty
    cache, the second before the first request settles, start two upstream
    calls for the same URL, both in flight, and wait on different
    promises. *)
Theorem getEPG_getMovieInfo_not_deduplicated (urlParses : string -> bool)
    (config : XtreamConfig) (id : ContentId) (limit now1 now2 : Z) :
  urlParses (baseUrl config +:+ "/player_api.php") = true ->
  (exists url,
     epgUrl urlParses config id limit = Ok url /\
     let first := getEPG urlParses config id limit now1 newService in
     let second := getEPG urlParses config id limit now2 first.2 in
     first.1 = Promise 0 /\ second.1 = Promise 1 /\
     length (inFlight url second.2) = 2%nat) /\
  (exists url,
     movieUrl urlParses config id = Ok url /\
     let first := getMovieInfo urlParses config id now1 newService in
     let second := getMovieInfo urlParses config id now2 first.2 in
     first.1 = Promise 0 /\ second.1 = Promise 1 /\
     length (inFlight url second.2) = 2%nat).
Proof.
  intros Hbase. split; eexists.
  - split; [unfold epgUrl; apply apiUrl_parses, Hbase|].
    unfold getEPG, epgUrl, cacheGet, newService, inFlight. simpl.
    rewrite lookup_empty. simpl. rewrite (apiUrl_parses _ _ _ _ Hbase).
    simpl. rewrite lookup_empty. simpl.
    rewrite bool_decide_eq_true_2 by reflexivity. done.
  - split; [unfold movieUrl; apply apiUrl_parses, Hbase|].
    unfold getMovieInfo, movieUrl, cacheGet, newService, inFlight. simpl.
    rewrite lookup_empty. simpl. rewrite (apiUrl_parses _ _ _ _ Hbase).
    simpl. rewrite lookup_empty. simpl.
    rewrite bool_decide_eq_true_2 by reflexivity. done.
Qed.

Lemma getEPG_getMovieInfo_not_deduplicated_witness :
  (exists url,
     epgUrl exampleParser (mkConfig "http://h" "u" "p") (IdNum 5) 24 = Ok url /\
     let first := getEPG exampleParser (mkConfig "http://h" "u" "p") (IdNum 5) 24 0
                    newService in
     let second := getEPG exampleParser (mkConfig "http://h" "u" "p") (IdNum 5) 24 1
                     first.2 in
     first.1 = Promise 0 /\ second.1 = Promise 1 /\
     length (inFlight url second.2) = 2%nat) /\
  (exists url,
     movieUrl exampleParser (mkConfig "http://h" "u" "p") (IdNum 5) = Ok url /\
     let first := getMovieInfo exampleParser (mkConfig "http://h" "u" "p") (IdNum 5) 0
                    newService in
     let second := getMovieInfo exampleParser (mkConfig "http://h" "u" "p") (IdNum 5) 1
                     first.2 in
     first.1 = Promise 0 /\ second.1 = Promise 1 /\
     length (inFlight url second.2) = 2%nat).
Proof.
  refine (getEPG_getMovieInfo_not_deduplicated exampleParser
            (mkConfig "http://h" "u" "p") (IdNum 5) 24 0 1 _).
  reflexivity.
Defined.

(** ** Response bodies *)

(** A call that misses the cache and joins nothing starts a request for the
    method's URL; awaited alone, it settles as that request does. *)
Lemma callAndAwait_miss (urlParses : string -> bool) (net : Network)
    (config : XtreamConfig) (m : Method) (now later : Z) (svc : XtreamService)
    (url : Url) :
  methodUrl urlParses config m = Ok url ->
  missesCache m now svc -> nothingPending m svc ->
  callAndAwait urlParses net config m now later svc =
  let run := fetchWithRetry net url 0 in
  Some (run.1, run.2,
        settle (length (requests svc)) run.2 later
          (mkService (cacheGet (methodKey m) now (cache svc)).2
             match m with
             | LiveStreams c =>
                 <["pending_" +:+ streamsKey c := length (requests svc)]>
                   (pendingRequests svc)
             | _ => pendingRequests svc
             end
             (requests svc ++ [mkRequest url (methodHandlers m) false]))).
Proof.
  unfold missesCache, nothingPending. intros Hurl Hmiss Hpending.
  destruct m as [category_id|stream_id limit|movie_id]; simpl in *;
    unfold callAndAwait, call, getLiveStreams, getEPG, getMovieInfo;
    destruct (cacheGet _ now (cache svc)) as [cached cache1]; simpl in Hmiss;
    rewrite Hmiss, ?Hpending, Hurl; cbn [requests snd];
    rewrite lookup_app_r by lia; rewrite Nat.sub_diag; reflexivity.
Qed.

(** What the handlers of a request just started do when it settles. *)
Lemma settle_started (m : Method) (outcome : Result JSV) (later : Z)
    (c : gmap string CacheEntry) (pending : gmap string nat) (rs : list Request)
    (url : Url) :
  cache (settle (length rs) outcome later
           (mkService c pending (rs ++ [mkRequest url (methodHandlers m) false]))) =
  match outcome with
  | Ok v => cacheSet (methodKey m) v (CACHE_DURATION (methodKind m)) later c
  | Throw _ => c
  end.
Proof.
  unfold settle. cbn [requests]. rewrite lookup_app_r by lia.
  rewrite Nat.sub_diag. cbn [lookup list_lookup req_settled req_handlers].
  destruct m, outcome; reflexivity.
Qed.

(** C3 (as the code has it).  The only check on a response body is
    [response.json()].  With a base URL that parses, a call that misses the
    cache and joins no pending request, and that is answered 2xx with a body
    that parses as [v], returns [v] after one attempt and caches it for the
    method's duration, whatever the shape of [v].  A body that does not
    parse is a failure, but one that is retried like any other: if every
    attempt is answered 2xx with a body that fails to parse, the method
    rejects with the fourth parse error after four attempts and caches
    nothing. *)
Theorem body_is_parsed_not_validated (urlParses : string -> bool) (net : Network)
    (config : XtreamConfig) (m : Method) (now later : Z) (svc : XtreamService)
    (url : Url) :
  methodUrl urlParses config m = Ok url ->
  missesCache m now svc -> nothingPending m svc ->
  (forall status v,
     net url 0%nat = Responded status (BodyJson v) ->
     response_ok status = true ->
     exists svc',
       callAndAwait urlParses net config m now later svc =
         Some ([EFetch url], Ok v, svc') /\
       cache svc' !! methodKey m =
         Some (mkCacheEntry v later (later + CACHE_DURATION (methodKind m)))) /\
  (forall (status : nat -> Z) (e : nat -> Thrown),
     (forall k, net url k = Responded (status k) (BodyFails (e k))) ->
     (forall k, response_ok (status k) = true) ->
     (forall k, isAbortError (e k) = false) ->
     exists svc',
       callAndAwait urlParses net config m now later svc =
         Some ([EFetch url; ESleep 1000; EFetch url; ESleep 2000;
                EFetch url; ESleep 5000; EFetch url], Throw (e 3%nat), svc') /\
       cache svc' = (cacheGet (methodKey m) now (cache svc)).2).
Proof.
  intros Hurl Hmiss Hpending. split.
  - intros status v Hnet Hok.
    rewrite (callAndAwait_miss _ _ _ _ _ _ _ _ Hurl Hmiss Hpending).
    assert (tryFetch (net url 0%nat) = Ok v) as Htry.
    { rewrite Hnet. simpl. rewrite Hok. reflexivity. }
    rewrite (fetchWithRetry_ok _ _ _ _ Htry). cbn [fst snd].
    eexists. split; [reflexivity|].
    rewrite settle_started. apply lookup_insert_eq.
  - intros status e Hnet Hok Habort.
    rewrite (callAndAwait_miss _ _ _ _ _ _ _ _ Hurl Hmiss Hpending).
    assert (forall k, tryFetch (net url k) = Throw (e k)) as Htry.
    { intros k. rewrite Hnet. simpl. rewrite Hok. reflexivity. }
    rewrite (fetchWithRetry_exhausts net _ (e 0%nat) (e 1%nat) (e 2%nat) (e 3%nat))
      by auto.
    cbn [fst snd]. eexists. split; [reflexivity|].
    rewrite settle_started. reflexivity.
Qed.

Lemma body_is_parsed_not_validated_witness :
  exists svc',
    callAndAwait exampleParser (fun _ _ => Responded 200 (BodyJson (JObj [])))
      (mkConfig "http://h" "u" "p") (LiveStreams None) 0 1 newService =
      Some ([EFetch (mkUrl "http://h/player_api.php"
                       [("username", "u"); ("password", "p");
                        ("action", "get_live_streams")])],
            Ok (JObj []), svc') /\
    cache svc' !! methodKey (LiveStreams None) =
      Some (mkCacheEntry (JObj []) 1 (1 + CACHE_DURATION (methodKind (LiveStreams None)))).
Proof.
  refine (proj1 (body_is_parsed_not_validated exampleParser
            (fun _ _ => Responded 200 (BodyJson (JObj [])))
            (mkConfig "http://h" "u" "p") (LiveStreams None) 0 1 newService
            (mkUrl "http://h/player_api.php"
               [("username", "u"); ("password", "p"); ("action", "get_live_streams")])
            _ _ _) 200 (JObj []) _ _);
    reflexivity.
Defined.

(** C3 as stated fails: with the base URL [http://h], [getLiveStreams]
    declares [XtreamStream[]], the provider answers 200 with the object
    [{}], and the caller receives [{}] as the result; and when the body is
    not JSON at all the request is retried three times before the parse
    error is surfaced. *)
Lemma mismatched_body_is_returned :
  hasShape (declaredShape (LiveStreams None)) (JObj []) = false /\
  callAndAwait exampleParser (fun _ _ => Responded 200 (BodyJson (JObj [])))
    (mkConfig "http://h" "u" "p") (LiveStreams None) 0 1 newService =
    Some ([EFetch (mkUrl "http://h/player_api.php"
                     [("username", "u"); ("password", "p");
                      ("action", "get_live_streams")])],
          Ok (JObj []),
          mkService
            {[ "streams_all" := mkCacheEntry (JObj []) 1 600001 ]} ∅
            [mkRequest (mkUrl "http://h/player_api.php"
                          [("username", "u"); ("password", "p");
                           ("action", "get_live_streams")])
               (StreamsHandlers "streams_all" "pending_streams_all") true]) /\
  received
    (callAndAwait exampleParser
       (fun _ _ => Responded 200 (BodyFails (ErrorObj "SyntaxError" "Unexpected token")))
       (mkConfig "http://h" "u" "p") (LiveStreams None) 0 1 newService) =
    Some (Throw (ErrorObj "SyntaxError" "Unexpected token")) /\
  attempts
    (fetchWithRetry
       (fun _ _ => Responded 200 (BodyFails (ErrorObj "SyntaxError" "Unexpected token")))
       (mkUrl "http://h/player_api.php"
          [("username", "u"); ("password", "p"); ("action", "get_live_streams")])
       0).1 = 4%nat.
Proof. vm_compute. repeat split. Qed.

(** ** The progress store: writes *)

Lemma filter_sublist (p : JSV -> bool) (l : list JSV) :
  List.filter p l `sublist_of` l.
Proof.
  induction l as [|x l IH]; simpl; [constructor|].
  destruct (p x); [apply sublist_skip | apply sublist_cons]; exact IH.
Qed.

Lemma filter_all (p : JSV -> bool) (l : list JSV) :
  Forall (fun x => p x = true) l -> List.filter p l = l.
Proof.
  induction 1 as [|x l Hx _ IH]; simpl; [done|]. rewrite Hx, IH. done.
Qed.

Lemma Forall_filter_true (p : JSV -> bool) (l : list JSV) :
  Forall (fun x => p x = true) (List.filter p l).
Proof.
  induction l as [|x l IH]; simpl; [constructor|].
  destruct (p x) eqn:Hx; [constructor; assumption | assumption].
Qed.

Lemma sliceLast_short (n : nat) (l : list JSV) :
  (length l <= n)%nat -> sliceLast n l = l.
Proof.
  intros H. unfold sliceLast. replace (length l - n)%nat with 0%nat by lia. done.
Qed.

Lemma sliceLast_length (n : nat) (l : list JSV) :
  (length (sliceLast n l) <= n)%nat.
Proof. unfold sliceLast. rewrite length_drop. lia. Qed.

(** What [saveAll] does with the collection it is given. *)
Lemma saveAll_filters (f : Faults) (d : JSV) (ls : LocalStorage) :
  (forall e, (saveAll f d ls).1 = Throw e -> (saveAll f d ls).2 = ls) /\
  ((forall items, d <> JArr items) -> exists e, saveAll f d ls = (Throw e, ls)) /\
  (forall items,
     d = JArr items -> setItem_throws f = None ->
     exists kept,
       saveAll f d ls = (Ok tt, Some (Json (JArr (List.map jsonClone kept)))) /\
       kept `sublist_of` sliceLast MAX_ENTRIES items /\
       (length kept <= MAX_ENTRIES)%nat /\
       Forall (fun x => validItem x = true) kept /\
       (forall x, x ∈ sliceLast MAX_ENTRIES items -> validItem x = true -> x ∈ kept) /\
       (Forall (fun x => validItem x = true) items ->
        (length items <= MAX_ENTRIES)%nat -> kept = items)).
Proof.
  split; [|split].
  - intros e. unfold saveAll.
    destruct d; try done. destruct (setItem_throws f); done.
  - intros Hd. unfold saveAll. destruct d; try (eexists; reflexivity).
    exfalso. eapply Hd. reflexivity.
  - intros items -> Hset.
    exists (List.filter validItem (sliceLast MAX_ENTRIES items)).
    unfold saveAll. rewrite Hset. split; [reflexivity|].
    split; [apply filter_sublist|].
    split.
    { etransitivity; [apply sublist_length, filter_sublist|apply sliceLast_length]. }
    split; [apply Forall_filter_true|].
    split.
    { intros x Hin Hv. apply list_elem_of_In, filter_In.
      split; [apply list_elem_of_In; exact Hin | exact Hv]. }
    intros Hall Hlen. rewrite sliceLast_short by exact Hlen.
    apply filter_all. exact Hall.
Qed.

(** C7 (as the code has it).  Every write of the store is rejected with the
    medium as it was, or is [clearAll] removing the stored collection with no
    validation at all, or, for [saveProgress], [clearProgress] and
    [pruneOldEntries], is the commit [saveAll] makes of an array.  [saveAll]
    rejects a write, leaving the medium as it was, only when the collection
    is not an array or [setItem] throws.  An array is otherwise always
    committed: the last [MAX_ENTRIES] entries are kept, those that fail the
    shape check are dropped, and what remains, in order, is written; a
    collection of at most [MAX_ENTRIES] entries that all pass the check is
    written whole. *)
Theorem writes_validate_by_filtering (ageInRange : Z -> number -> JSV -> bool)
    (ls : LocalStorage) (op : Op) :
  ((exists e, perform ageInRange ls op = (Throw e, ls)) \/
   (exists f, op = OpClearAll f /\ perform ageInRange ls op = (Ok tt, None)) \/
   (exists items,
      (forall f, op <> OpClearAll f) /\
      perform ageInRange ls op = saveAll (opFaults op) (JArr items) ls)) /\
  (forall f d,
     (forall e, (saveAll f d ls).1 = Throw e -> (saveAll f d ls).2 = ls) /\
     ((forall items, d <> JArr items) -> exists e, saveAll f d ls = (Throw e, ls)) /\
     (forall items,
        d = JArr items -> setItem_throws f = None ->
        exists kept,
          saveAll f d ls = (Ok tt, Some (Json (JArr (List.map jsonClone kept)))) /\
          kept `sublist_of` sliceLast MAX_ENTRIES items /\
          (length kept <= MAX_ENTRIES)%nat /\
          Forall (fun x => validItem x = true) kept /\
          (forall x, x ∈ sliceLast MAX_ENTRIES items -> validItem x = true -> x ∈ kept) /\
          (Forall (fun x => validItem x = true) items ->
           (length items <= MAX_ENTRIES)%nat -> kept = items))).
Proof.
  split; [|intros f d; apply saveAll_filters].
  destruct op as [f type id position duration now|f type id|f|f maxAgeDays now]; simpl.
  - unfold saveProgress.
    destruct position; try (left; eexists; reflexivity).
    destruct duration; try (left; eexists; reflexivity).
    destruct (findIndex _ _) as [index|e]; [|left; eexists; reflexivity].
    right. right. eexists. split; [discriminate | reflexivity].
  - unfold clearProgress.
    destruct (negb _); [left; eexists; reflexivity|].
    destruct (filterR _ _) as [filtered|e]; [|left; eexists; reflexivity].
    right. right. eexists. split; [discriminate | reflexivity].
  - unfold clearAll. destruct (removeItem_throws f) as [e|].
    + left. eexists. reflexivity.
    + right. left. eexists. split; reflexivity.
  - unfold pruneOldEntries.
    destruct (le0 _); [left; eexists; reflexivity|].
    destruct (filterR _ _) as [filtered|e]; [|left; eexists; reflexivity].
    right. right. eexists. split; [discriminate | reflexivity].
Qed.

Lemma writes_validate_by_filtering_witness :
  exists kept,
    saveAll noFaults (JArr [JNull; newEntry movie "42" (num 120) (num 3600) 7]) None =
      (Ok tt, Some (Json (JArr (List.map jsonClone kept)))) /\
    kept `sublist_of`
      sliceLast MAX_ENTRIES [JNull; newEntry movie "42" (num 120) (num 3600) 7] /\
    (length kept <= MAX_ENTRIES)%nat /\
    Forall (fun x => validItem x = true) kept /\
    (forall x,
       x ∈ sliceLast MAX_ENTRIES [JNull; newEntry movie "42" (num 120) (num 3600) 7] ->
       validItem x = true -> x ∈ kept) /\
    (Forall (fun x => validItem x = true)
       [JNull; newEntry movie "42" (num 120) (num 3600) 7] ->
     (length [JNull; newEntry movie "42" (num 120) (num 3600) 7] <= MAX_ENTRIES)%nat ->
     kept = [JNull; newEntry movie "42" (num 120) (num 3600) 7]).
Proof.
  refine (proj2 (proj2 (proj2 (writes_validate_by_filtering (fun _ _ _ => true) None
            (OpSave noFaults movie "42" (JNum (num 120)) (JNum (num 3600)) 7))
            noFaults (JArr [JNull; newEntry movie "42" (num 120) (num 3600) 7])))
            [JNull; newEntry movie "42" (num 120) (num 3600) 7] _ _); reflexivity.
Defined.

(** C7 as stated fails: a collection with a malformed entry ([null]) is not
    rejected; the write succeeds and changes the medium, committing the
    well-formed entry alone. *)
Lemma saveAll_commits_collection_with_malformed_entry :
  validItem JNull = false /\
  saveAll noFaults (JArr [JNull; newEntry movie "42" (num 120) (num 3600) 7]) None =
    (Ok tt, Some (Json (JArr [newEntry movie "42" (num 120) (num 3600) 7]))) /\
  Some (Json (JArr [newEntry movie "42" (num 120) (num 3600) 7])) <> (None : LocalStorage).
Proof. repeat split. discriminate. Qed.

(** [Math.max(0, x)] is at least 0 for every number but [NaN]. *)
Lemma Math_max_0_ge0 (x : number) :
  x <> NaN -> ge0 (Math_max (num 0) x) = true.
Proof.
  intros Hx. destruct x as [| |q|]; try done. simpl.
  destruct (Qle_bool (inject_Z 0) q) eqn:Hq; simpl; [exact Hq | reflexivity].
Qed.

(** C9.  [saveProgress] lets [NaN] through: [typeof NaN] is ['number'] and
    [Math.max(0, NaN)] is [NaN].  The entry it builds has position [NaN],
    which is not [>= 0]; the write succeeds, the medium holds [null] for the
    position, and the stored record fails the store's own shape check. *)
Theorem saveProgress_stores_NaN_position (now : Z) :
  typeof (JNum NaN) = "number" /\
  propOf (newEntry movie "42" NaN (num 3600) now) "position" = JNum NaN /\
  ge0 NaN = false /\
  saveProgress noFaults movie "42" (JNum NaN) (JNum (num 3600)) now None =
    (Ok tt,
     Some (Json (JArr [JObj [("type", JStr "movie"); ("id", JStr "42");
                             ("position", JNull);
                             ("duration", JNum (num 3600));
                             ("timestamp", JNum (num now))]]))) /\
  validItem (JObj [("type", JStr "movie"); ("id", JStr "42");
                   ("position", JNull);
                   ("duration", JNum (num 3600));
                   ("timestamp", JNum (num now))]) = false.
Proof. repeat split. Qed.

(** What [saveProgress] builds from numbers other than [NaN] has a position
    and a duration that are at least 0. *)
Lemma newEntry_clamped (type : ContentType) (id : string) (pos dur : number) (now : Z) :
  pos <> NaN -> dur <> NaN ->
  exists p d,
    propOf (newEntry type id pos dur now) "position" = JNum p /\ ge0 p = true /\
    propOf (newEntry type id pos dur now) "duration" = JNum d /\ ge0 d = true.
Proof.
  intros Hp Hd. exists (Math_max (num 0) pos), (Math_max (num 0) dur).
  repeat split; auto using Math_max_0_ge0.
Qed.

(** ** The progress store: reads *)

Section ProgressReads.

Variable StringToNumber : string -> number.
Variable ObjectToNumber : JSV -> number.

Lemma find_no_match (type : ContentType) (id : string) (l : list JSV) :
  Forall (fun item => sameKey type id item <> Ok true) l ->
  find (sameKey type id) l = Ok None \/ exists e, find (sameKey type id) l = Throw e.
Proof.
  induction 1 as [|x l Hx _ IH]; simpl; [left; reflexivity|].
  destruct (sameKey type id x) as [[|]|e]; simpl.
  - contradiction.
  - exact IH.
  - right. exists e. reflexivity.
Qed.

(** C10.  [getWatchProgress] always fulfils with a number: every exception
    raised while reading (an invalid id, [getItem] throwing, text that is not
    JSON, a [null] entry in the stored array) ends in the [catch] block.  The
    number is 0 when the id is empty, when the medium cannot be read or holds
    no array, and when no stored entry is a record of [(type, id)]. *)
Theorem getWatchProgress_never_fails (f : Faults) (type : ContentType) (id : string)
    (ls : LocalStorage) :
  (exists n, getWatchProgress StringToNumber ObjectToNumber f type id ls = Ok n) /\
  (Forall (fun item => sameKey type id item <> Ok true) (getAll f ls) ->
   getWatchProgress StringToNumber ObjectToNumber f type id ls = Ok (num 0)) /\
  (id = "" \/ getItem_throws f <> None \/ ls = None \/ ls = Some NotJson \/
   (exists v, ls = Some (Json v) /\ forall items, v <> JArr items) ->
   getWatchProgress StringToNumber ObjectToNumber f type id ls = Ok (num 0)).
Proof.
  assert (Forall (fun item => sameKey type id item <> Ok true) (getAll f ls) ->
          getWatchProgress StringToNumber ObjectToNumber f type id ls = Ok (num 0))
    as Habsent.
  { intros Hno. unfold getWatchProgress, getProgress.
    destruct (negb (truthy (JStr id))); [reflexivity|].
    destruct (find_no_match type id _ Hno) as [-> | [e ->]]; reflexivity. }
  split; [|split].
  - unfold getWatchProgress, getProgress.
    destruct (negb (truthy (JStr id))); simpl; [eexists; reflexivity|].
    destruct (find (sameKey type id) (getAll f ls)) as [entry|e]; simpl;
      eexists; reflexivity.
  - exact Habsent.
  - intros [-> | Hread]; [reflexivity|].
    apply Habsent.
    assert (getAll f ls = []) as ->; [|constructor].
    unfold getAll. destruct (getItem_throws f) as [e|]; [reflexivity|].
    destruct Hread as [Hf | [-> | [-> | (v & -> & Hv)]]]; try done.
    destruct v; try reflexivity. exfalso. eapply Hv. reflexivity.
Qed.

End ProgressReads.

Lemma getWatchProgress_never_fails_witness :
  getWatchProgress (fun _ => NaN) (fun _ => NaN) noFaults movie "42"
    (Some (Json (JArr [JNull]))) = Ok (num 0).
Proof.
  refine (proj1 (proj2 (getWatchProgress_never_fails (fun _ => NaN) (fun _ => NaN)
            noFaults movie "42" (Some (Json (JArr [JNull])))))  _).
  repeat constructor. discriminate.
Defined.

(** ** The progress store: what the medium holds *)

Lemma validItem_keyed (x : JSV) : validItem x = true -> is_Some (keyOf x).
Proof.
  unfold validItem. destruct (truthy x); [|discriminate].
  intros H. apply andb_true_iff in H as [H Htype].
  repeat (apply andb_true_iff in H as [H _]).
  destruct x as [| |b|n|s|l|fs]; simpl in *; try discriminate.
  unfold keyOf. simpl.
  destruct (assoc "id" fs); simpl in *; try discriminate;
    destruct (assoc "type" fs); simpl in *; try discriminate.
  eexists. reflexivity.
Qed.

Lemma assoc_jsonClone (p : string) (fs : list (string * JSV)) :
  assoc p fs <> JUndefined ->
  propOf (jsonClone (JObj fs)) p = jsonClone (assoc p fs).
Proof.
  induction fs as [|[k x] rest IH]; simpl; intros H; [contradiction|].
  destruct (String.eqb k p) eqn:E.
  - destruct x; try contradiction; simpl; rewrite E; reflexivity.
  - destruct x; simpl; rewrite ?E; apply IH; exact H.
Qed.

Lemma keyOf_jsonClone (x : JSV) :
  is_Some (keyOf x) -> keyOf (jsonClone x) = keyOf x.
Proof.
  intros [k Hk]. destruct x as [| |b|n|s|l|fs]; try discriminate.
  unfold keyOf in *. simpl propOf in Hk.
  destruct (assoc "type" fs) as [| | | |t| |] eqn:Ht; try discriminate.
  destruct (assoc "id" fs) as [| | | |i| |] eqn:Hi; try discriminate.
  rewrite !assoc_jsonClone by congruence. cbn [propOf]. rewrite Ht, Hi. reflexivity.
Qed.

Lemma hasKey_jsonClone (type : ContentType) (id : string) (x : JSV) :
  is_Some (keyOf x) -> hasKey type id (jsonClone x) = hasKey type id x.
Proof. intros H. unfold hasKey. rewrite keyOf_jsonClone by exact H. reflexivity. Qed.

Lemma hasKey_true (type : ContentType) (id : string) (x : JSV) :
  hasKey type id x = true <-> keyOf x = Some (typeString type, id).
Proof.
  unfold hasKey. destruct (keyOf x) as [[t i]|]; [|split; discriminate].
  rewrite andb_true_iff, !String.eqb_eq. split.
  - intros [-> ->]. reflexivity.
  - intros [= -> ->]. done.
Qed.

Lemma sameKey_keyed (type : ContentType) (id : string) (x : JSV) :
  is_Some (keyOf x) -> sameKey type id x = Ok (hasKey type id x).
Proof.
  intros [k Hk]. destruct x as [| |b|n|s|l|fs]; try discriminate.
  unfold sameKey, hasKey, keyOf in *. simpl in *.
  destruct (assoc "type" fs) as [| | | |t| |]; try discriminate.
  destruct (assoc "id" fs) as [| | | |i| |]; try discriminate.
  simpl. destruct (String.eqb t (typeString type)); reflexivity.
Qed.

Lemma keyOf_newEntry (type : ContentType) (id : string) (pos dur : number) (now : Z) :
  keyOf (newEntry type id pos dur now) = Some (typeString type, id).
Proof. reflexivity. Qed.

Lemma validItem_newEntry (type : ContentType) (id : string) (pos dur : number) (now : Z) :
  validItem (newEntry type id pos dur now) = true.
Proof. destruct type; reflexivity. Qed.

Lemma Forall_of_sublist (P : JSV -> Prop) (l1 l2 : list JSV) :
  l1 `sublist_of` l2 -> Forall P l2 -> Forall P l1.
Proof.
  induction 1 as [|x l1 l2 _ IH|x l1 l2 _ IH]; intros H; [constructor| |];
    apply Forall_cons in H as [Hx H]; [constructor|]; auto.
Qed.

Lemma sublist_map_keyOf (l1 l2 : list JSV) :
  l1 `sublist_of` l2 -> List.map keyOf l1 `sublist_of` List.map keyOf l2.
Proof. induction 1; simpl; constructor; assumption. Qed.

Lemma map_keyOf_jsonClone (l : list JSV) :
  Forall (fun x => is_Some (keyOf x)) l ->
  List.map keyOf (List.map jsonClone l) = List.map keyOf l.
Proof.
  induction 1 as [|x l Hx _ IH]; simpl; [done|].
  rewrite keyOf_jsonClone, IH by exact Hx. done.
Qed.

Lemma Forall_keyed_jsonClone (l : list JSV) :
  Forall (fun x => is_Some (keyOf x)) l ->
  Forall (fun x => is_Some (keyOf x)) (List.map jsonClone l).
Proof.
  induction 1 as [|x l Hx _ IH]; simpl; constructor; [|exact IH].
  rewrite keyOf_jsonClone; exact Hx.
Qed.

Lemma Forall_valid_keyed (l : list JSV) :
  Forall (fun x => validItem x = true) l -> Forall (fun x => is_Some (keyOf x)) l.
Proof.
  intros H. eapply Forall_impl; [exact H|]. intros x. apply validItem_keyed.
Qed.

Lemma getAll_inv (f : Faults) (ls : LocalStorage) :
  storeInv ls ->
  Forall (fun x => is_Some (keyOf x)) (getAll f ls) /\
  NoDup (List.map keyOf (getAll f ls)).
Proof.
  intros H. unfold getAll.
  destruct (getItem_throws f); [split; constructor|].
  destruct ls as [[|v]|]; try (split; constructor).
  destruct v; try (split; constructor). exact H.
Qed.

(** Whatever array [saveAll] is given, it leaves a medium that satisfies the
    invariant, provided the array has no two entries with the same key. *)
Lemma saveAll_inv (f : Faults) (items : list JSV) (ls : LocalStorage) :
  storeInv ls -> NoDup (List.map keyOf items) ->
  storeInv (saveAll f (JArr items) ls).2.
Proof.
  intros Hls Hnd. unfold saveAll. destruct (setItem_throws f); [exact Hls|].
  simpl.
  set (kept := List.filter validItem (sliceLast MAX_ENTRIES items)).
  assert (Forall (fun x => is_Some (keyOf x)) kept) as Hkeyed.
  { apply Forall_valid_keyed, Forall_filter_true. }
  split; [apply Forall_keyed_jsonClone; exact Hkeyed|].
  rewrite map_keyOf_jsonClone by exact Hkeyed.
  eapply sublist_NoDup; [exact Hnd|].
  apply sublist_map_keyOf. etransitivity; [apply filter_sublist|].
  apply sublist_drop.
Qed.

Lemma filterR_sublist (p : JSV -> Result bool) (l r : list JSV) :
  filterR p l = Ok r -> r `sublist_of` l.
Proof.
  revert r. induction l as [|x l IH]; simpl; intros r H.
  - injection H as <-. constructor.
  - destruct (p x) as [b|e]; simpl in H; [|discriminate].
    destruct (filterR p l) as [r'|e]; simpl in H; [|discriminate].
    injection H as <-. destruct b; constructor; apply IH; reflexivity.
Qed.

(** On an array that satisfies the invariant, [findIndex] does not throw and
    removing the entry it finds removes every record of the key. *)
Lemma remove_existing (type : ContentType) (id : string) (l : list JSV) :
  Forall (fun x => is_Some (keyOf x)) l -> NoDup (List.map keyOf l) ->
  exists index,
    findIndex (sameKey type id) l = Ok index /\
    match index with Some i => delete i l | None => l end =
    List.filter (fun x => negb (hasKey type id x)) l.
Proof.
  induction 1 as [|x l Hx Hl IH]; simpl; intros Hnd.
  - exists None. done.
  - apply NoDup_cons in Hnd as [Hnotin Hnd].
    rewrite (sameKey_keyed type id x Hx). simpl.
    destruct (hasKey type id x) eqn:Hk; simpl.
    + exists (Some 0%nat). split; [reflexivity|]. simpl.
      symmetry. apply filter_all. apply Forall_forall. intros y Hy.
      destruct (hasKey type id y) eqn:Hky; [|reflexivity]. exfalso.
      apply hasKey_true in Hk, Hky. apply Hnotin. rewrite Hk, <- Hky.
      apply list_elem_of_In, in_map, list_elem_of_In. exact Hy.
    + destruct (IH Hnd) as (index & Hfind & Hdel). rewrite Hfind. simpl.
      exists (option_map S index). split; [reflexivity|].
      destruct index as [i|]; simpl; rewrite <- Hdel; reflexivity.
Qed.

Lemma Forall_filter_negb_hasKey (type : ContentType) (id : string) (l : list JSV) :
  Forall (fun x => hasKey type id x = false)
    (List.filter (fun x => negb (hasKey type id x)) l).
Proof.
  eapply Forall_impl; [apply (Forall_filter_true (fun x => negb (hasKey type id x)))|].
  intros x. simpl. destruct (hasKey type id x); done.
Qed.

(** The array [saveProgress] hands to [saveAll]. *)
Lemma saveProgress_array (f : Faults) (type : ContentType) (id : string)
    (pos dur : number) (now : Z) (ls : LocalStorage) :
  storeInv ls ->
  exists d1,
    saveProgress f type id (JNum pos) (JNum dur) now ls =
      saveAll f (JArr (d1 ++ [newEntry type id pos dur now])) ls /\
    Forall (fun x => is_Some (keyOf x)) d1 /\
    Forall (fun x => hasKey type id x = false) d1 /\
    NoDup (List.map keyOf d1).
Proof.
  intros Hls. destruct (getAll_inv f ls Hls) as [Hkeyed Hnd].
  destruct (remove_existing type id _ Hkeyed Hnd) as (index & Hfind & Hdel).
  exists (List.filter (fun x => negb (hasKey type id x)) (getAll f ls)).
  split; [|split; [|split]].
  - unfold saveProgress. rewrite Hfind, Hdel. reflexivity.
  - eapply Forall_of_sublist; [apply filter_sublist | exact Hkeyed].
  - apply Forall_filter_negb_hasKey.
  - eapply sublist_NoDup; [exact Hnd|]. apply sublist_map_keyOf, filter_sublist.
Qed.

Lemma NoDup_keys_snoc (type : ContentType) (id : string) (d1 : list JSV) (x : JSV) :
  keyOf x = Some (typeString type, id) ->
  Forall (fun y => hasKey type id y = false) d1 ->
  NoDup (List.map keyOf d1) ->
  NoDup (List.map keyOf (d1 ++ [x])).
Proof.
  intros Hx Hno Hnd. rewrite map_app. simpl. apply NoDup_app.
  split; [exact Hnd|]. split; [|apply NoDup_singleton].
  intros k Hk Hin. apply list_elem_of_singleton in Hin. subst k.
  apply list_elem_of_In, in_map_iff in Hk as (y & Hy & Hin).
  rewrite Hx in Hy. apply hasKey_true in Hy.
  rewrite Forall_forall in Hno. apply list_elem_of_In in Hin.
  rewrite (Hno y Hin) in Hy. discriminate.
Qed.

Lemma saveProgress_inv (f : Faults) (type : ContentType) (id : string)
    (position duration : JSV) (now : Z) (ls : LocalStorage) :
  storeInv ls -> storeInv (saveProgress f type id position duration now ls).2.
Proof.
  intros Hls.
  destruct position as [| | |pos| | |]; try exact Hls.
  destruct duration as [| | |dur| | |]; try exact Hls.
  destruct (saveProgress_array f type id pos dur now ls Hls)
    as (d1 & -> & Hkeyed & Hno & Hnd).
  apply saveAll_inv; [exact Hls|].
  apply (NoDup_keys_snoc type id); auto using keyOf_newEntry.
Qed.

Lemma clearProgress_inv (f : Faults) (type : ContentType) (id : string)
    (ls : LocalStorage) :
  storeInv ls -> storeInv (clearProgress f type id ls).2.
Proof.
  intros Hls. unfold clearProgress.
  destruct (negb (truthy (JStr id))); [exact Hls|].
  destruct (filterR _ (getAll f ls)) as [filtered|e] eqn:Hf; [|exact Hls].
  apply saveAll_inv; [exact Hls|].
  eapply sublist_NoDup; [apply (getAll_inv f ls Hls)|].
  apply sublist_map_keyOf. eapply filterR_sublist. exact Hf.
Qed.

Lemma clearAll_inv (f : Faults) (ls : LocalStorage) :
  storeInv ls -> storeInv (clearAll f ls).2.
Proof. intros Hls. unfold clearAll. destruct (removeItem_throws f); done. Qed.

Lemma pruneOldEntries_inv (ageInRange : Z -> number -> JSV -> bool) (f : Faults)
    (maxAgeDays : number) (now : Z) (ls : LocalStorage) :
  storeInv ls -> storeInv (pruneOldEntries ageInRange f maxAgeDays now ls).2.
Proof.
  intros Hls. unfold pruneOldEntries.
  destruct (le0 maxAgeDays); [exact Hls|].
  destruct (filterR _ (getAll f ls)) as [filtered|e] eqn:Hf; [|exact Hls].
  apply saveAll_inv; [exact Hls|].
  eapply sublist_NoDup; [apply (getAll_inv f ls Hls)|].
  apply sublist_map_keyOf. eapply filterR_sublist. exact Hf.
Qed.

(** Every medium the store can produce from an empty one satisfies the
    invariant. *)
Lemma history_inv (ageInRange : Z -> number -> JSV -> bool) (ops : list Op) :
  storeInv (history ageInRange ops).
Proof.
  unfold history. assert (storeInv None) as H by exact I.
  revert H. generalize (None : LocalStorage).
  induction ops as [|op ops IH]; intros ls Hls; simpl; [exact Hls|].
  apply IH. destruct op; simpl;
    auto using saveProgress_inv, clearProgress_inv, clearAll_inv, pruneOldEntries_inv.
Qed.

(** ** The progress store: saving and reading back *)

Lemma sliceLast_snoc (d1 : list JSV) (x : JSV) :
  exists n, sliceLast MAX_ENTRIES (d1 ++ [x]) = drop n d1 ++ [x].
Proof.
  unfold sliceLast, MAX_ENTRIES. rewrite length_app. simpl.
  exists (length d1 + 1 - 100)%nat. apply drop_app_le. lia.
Qed.

(** What a successful [saveProgress] leaves on a medium that satisfies the
    invariant: records of other keys, then the new record. *)
Lemma saveProgress_medium (type : ContentType) (id : string) (pos dur : number)
    (now : Z) (ls : LocalStorage) :
  storeInv ls ->
  exists others,
    saveProgress noFaults type id (JNum pos) (JNum dur) now ls =
      (Ok tt, Some (Json (JArr (others ++ [jsonClone (newEntry type id pos dur now)])))) /\
    Forall (fun x => is_Some (keyOf x)) others /\
    Forall (fun x => hasKey type id x = false) others.
Proof.
  intros Hls.
  destruct (saveProgress_array noFaults type id pos dur now ls Hls)
    as (d1 & -> & Hkeyed & Hno & _).
  destruct (sliceLast_snoc d1 (newEntry type id pos dur now)) as [n Hn].
  exists (List.map jsonClone (List.filter validItem (drop n d1))).
  assert (Forall (fun x => is_Some (keyOf x)) (List.filter validItem (drop n d1)))
    as Hkept.
  { eapply Forall_of_sublist; [|exact Hkeyed].
    etransitivity; [apply filter_sublist | apply sublist_drop]. }
  split; [|split].
  - unfold saveAll. simpl setItem_throws. cbv iota. rewrite Hn.
    rewrite List.filter_app. simpl List.filter. rewrite validItem_newEntry.
    cbn [jsonClone]. rewrite List.map_app. reflexivity.
  - apply Forall_keyed_jsonClone. exact Hkept.
  - assert (Forall (fun x => hasKey type id x = false)
              (List.filter validItem (drop n d1))) as Hno'.
    { eapply Forall_of_sublist; [|exact Hno].
      etransitivity; [apply filter_sublist | apply sublist_drop]. }
    revert Hkept Hno'. generalize (List.filter validItem (drop n d1)).
    induction l as [|y l IH]; simpl; intros Hk Hn'; [constructor|].
    apply Forall_cons in Hk as [Hy Hk]. apply Forall_cons in Hn' as [Hy' Hn'].
    constructor; [|apply IH; assumption].
    rewrite hasKey_jsonClone; assumption.
Qed.

Lemma find_last (type : ContentType) (id : string) (others : list JSV) (x : JSV) :
  Forall (fun y => is_Some (keyOf y)) others ->
  Forall (fun y => hasKey type id y = false) others ->
  keyOf x = Some (typeString type, id) ->
  find (sameKey type id) (others ++ [x]) = Ok (Some x).
Proof.
  intros Hkeyed Hno Hx. induction others as [|y l IH]; simpl.
  - rewrite sameKey_keyed by (rewrite Hx; eexists; reflexivity).
    apply hasKey_true in Hx. rewrite Hx. reflexivity.
  - apply Forall_cons in Hkeyed as [Hy Hkeyed]. apply Forall_cons in Hno as [Hy' Hno].
    rewrite (sameKey_keyed type id y Hy), Hy'. simpl. apply IH; assumption.
Qed.

Lemma filter_hasKey_last (type : ContentType) (id : string) (others : list JSV) (x : JSV) :
  Forall (fun y => hasKey type id y = false) others ->
  keyOf x = Some (typeString type, id) ->
  List.filter (hasKey type id) (others ++ [x]) = [x].
Proof.
  intros Hno Hx. apply hasKey_true in Hx.
  induction Hno as [|y l Hy _ IH]; simpl; [rewrite Hx; reflexivity|].
  rewrite Hy. exact IH.
Qed.

Lemma getAll_array (l : list JSV) : getAll noFaults (Some (Json (JArr l))) = l.
Proof. reflexivity. Qed.

Section ProgressRoundTrip.

Variable StringToNumber : string -> number.
Variable ObjectToNumber : JSV -> number.
Variable ageInRange : Z -> number -> JSV -> bool.

(** Saving a finite position and reading it back, on any medium that
    satisfies the invariant: the read returns the clamped position and the
    medium holds exactly one record of the key, the one just written. *)
Lemma save_then_get (type : ContentType) (id : string) (q d : Q) (now : Z)
    (ls : LocalStorage) :
  storeInv ls -> id <> "" ->
  let s := saveProgress noFaults type id (JNum (Finite q)) (JNum (Finite d)) now ls in
  s.1 = Ok tt /\
  getProgress StringToNumber ObjectToNumber noFaults type id s.2 =
    Ok (Math_max (num 0) (Math_max (num 0) (Finite q))) /\
  List.filter (hasKey type id) (getAll noFaults s.2) =
    [newEntry type id (Finite q) (Finite d) now].
Proof.
  intros Hls Hid s. subst s.
  destruct (saveProgress_medium type id (Finite q) (Finite d) now ls Hls)
    as (others & -> & Hkeyed & Hno).
  assert (jsonClone (newEntry type id (Finite q) (Finite d) now) =
          newEntry type id (Finite q) (Finite d) now) as ->.
  { unfold newEntry. simpl.
    destruct (Qle_bool (inject_Z 0) q), (Qle_bool (inject_Z 0) d); reflexivity. }
  split; [reflexivity|]. split.
  - unfold getProgress. cbn [snd]. rewrite getAll_array.
    assert (negb (truthy (JStr id)) = false) as ->.
    { simpl. destruct (String.eqb_spec id ""); [contradiction|reflexivity]. }
    rewrite (find_last type id others _ Hkeyed Hno (keyOf_newEntry _ _ _ _ _)).
    reflexivity.
  - cbn [snd]. rewrite getAll_array.
    apply filter_hasKey_last; [exact Hno | apply keyOf_newEntry].
Qed.

(** C8.  After any history of store operations on an initially empty
    medium, [saveProgress('movie','42',120,3600)] succeeds and
    [getProgress('movie','42')] then returns 120; a further
    [saveProgress('movie','42',200,3600)] succeeds and the same query then
    returns 200, the medium holding one record of [('movie','42')]: the one
    written last, with position 200, duration 3600 and the time of the
    second write. *)
Theorem progress_round_trip (ops : list Op) (t1 t2 : Z) :
  let s1 := saveProgress noFaults movie "42" (JNum (num 120)) (JNum (num 3600)) t1
              (history ageInRange ops) in
  let s2 := saveProgress noFaults movie "42" (JNum (num 200)) (JNum (num 3600)) t2
              s1.2 in
  s1.1 = Ok tt /\
  getProgress StringToNumber ObjectToNumber noFaults movie "42" s1.2 = Ok (num 120) /\
  s2.1 = Ok tt /\
  getProgress StringToNumber ObjectToNumber noFaults movie "42" s2.2 = Ok (num 200) /\
  List.filter (hasKey movie "42") (getAll noFaults s2.2) =
    [newEntry movie "42" (num 200) (num 3600) t2].
Proof.
  intros s1 s2.
  pose proof (history_inv ageInRange ops) as H0.
  assert ("42" <> "") as Hid by discriminate.
  destruct (save_then_get movie "42" (inject_Z 120) (inject_Z 3600) t1 _ H0 Hid)
    as (Hs1 & Hg1 & _).
  assert (storeInv s1.2) as H1 by (apply saveProgress_inv; exact H0).
  destruct (save_then_get movie "42" (inject_Z 200) (inject_Z 3600) t2 _ H1 Hid)
    as (Hs2 & Hg2 & Hf2).
  repeat split; assumption.
Qed.

End ProgressRoundTrip.

(** * Further properties *)

(** ** The retrying fetcher: every run *)

Lemma fetchWithRetry_step (net : Network) (url : Url) (k : nat) :
  fetchWithRetry net url k =
  match tryFetch (net url k) with
  | Ok v => ([EFetch url], Ok v)
  | Throw e =>
      if isAbortError e then ([EFetch url], Throw e)
      else if (k <? length retryDelays)%nat
           then (EFetch url :: ESleep (nth k retryDelays 0)
                   :: (fetchWithRetry net url (S k)).1,
                 (fetchWithRetry net url (S k)).2)
           else ([EFetch url], Throw e)
  end.
Proof.
  destruct (tryFetch (net url k)) as [v|e] eqn:Htry.
  - apply fetchWithRetry_ok. exact Htry.
  - destruct (isAbortError e) eqn:Ha.
    + apply fetchWithRetry_abort; assumption.
    + destruct (Nat.ltb_spec k (length retryDelays)).
      * apply (fetchWithRetry_retry net url k e); assumption.
      * apply (fetchWithRetry_give_up net url k e); [assumption..|lia].
Qed.

(** From any retry count: the run is some retries, each a fetch followed by
    the next delay of the schedule, then a last fetch whose outcome is the
    result; an attempt is retried only when it failed other than by
    cancellation, and the last one is final or the schedule is used up. *)
Lemma fetchWithRetry_shape (net : Network) (url : Url) (k : nat) :
  exists n,
    (k + n <= Nat.max k (length retryDelays))%nat /\
    (fetchWithRetry net url k).1 =
      flat_map (fun d => [EFetch url; ESleep d]) (take n (drop k retryDelays)) ++
      [EFetch url] /\
    (fetchWithRetry net url k).2 = tryFetch (net url (k + n)%nat) /\
    (forall j, (k <= j < k + n)%nat ->
       exists e, tryFetch (net url j) = Throw e /\ isAbortError e = false) /\
    ((length retryDelays <= k + n)%nat \/
     (exists v, tryFetch (net url (k + n)%nat) = Ok v) \/
     (exists e, tryFetch (net url (k + n)%nat) = Throw e /\ isAbortError e = true)).
Proof.
  remember (length retryDelays - k)%nat as m eqn:Hm.
  revert k Hm. induction m as [|m IH]; intros k Hm.
  - exists 0%nat. rewrite Nat.add_0_r, fetchWithRetry_step.
    replace (k <? length retryDelays)%nat with false
      by (symmetry; apply Nat.ltb_ge; lia).
    split; [lia|]. split.
    { destruct (tryFetch (net url k)) as [v|e]; [reflexivity|].
      destruct (isAbortError e); reflexivity. }
    split.
    { destruct (tryFetch (net url k)) as [v|e]; [reflexivity|].
      destruct (isAbortError e); reflexivity. }
    split; [intros j Hj; lia|]. left. lia.
  - rewrite fetchWithRetry_step.
    destruct (tryFetch (net url k)) as [v|e] eqn:Htry.
    { exists 0%nat. rewrite Nat.add_0_r, Htry. split; [lia|].
      repeat split; [intros j Hj; lia|]. right. left. exists v. reflexivity. }
    destruct (isAbortError e) eqn:Ha.
    { exists 0%nat. rewrite Nat.add_0_r, Htry. split; [lia|].
      repeat split; [intros j Hj; lia|]. right. right. exists e. done. }
    assert (k < length retryDelays)%nat as Hk by lia.
    replace (k <? length retryDelays)%nat with true
      by (symmetry; apply Nat.ltb_lt; exact Hk).
    destruct (IH (S k) ltac:(lia)) as (n & Hn & Htrace & Hres & Hretried & Hlast).
    exists (S n). replace (k + S n)%nat with (S k + n)%nat by lia.
    split; [lia|]. split.
    { cbn [fst]. rewrite Htrace.
      destruct (lookup_lt_is_Some_2 retryDelays k Hk) as [d Hd].
      rewrite (drop_S _ _ _ Hd). rewrite nth_lookup, Hd. reflexivity. }
    split; [exact Hres|]. split; [|exact Hlast].
    intros j Hj. destruct (decide (j = k)) as [->|Hne].
    + exists e. done.
    + apply Hretried. lia.
Qed.

Lemma attempts_retries (url : Url) (ds : list Z) :
  attempts (flat_map (fun d => [EFetch url; ESleep d]) ds ++ [EFetch url]) =
  S (length ds).
Proof.
  unfold attempts. induction ds as [|d ds IH]; simpl; [reflexivity|].
  rewrite IH. reflexivity.
Qed.

Lemma sleeps_retries (url : Url) (ds : list Z) :
  sleeps (flat_map (fun d => [EFetch url; ESleep d]) ds ++ [EFetch url]) = ds.
Proof.
  induction ds as [|d ds IH]; [reflexivity|].
  change (d :: sleeps (flat_map (fun d => [EFetch url; ESleep d]) ds ++ [EFetch url]) =
          d :: ds).
  rewrite IH. reflexivity.
Qed.

(** X1.  Whatever the network does, a call of [fetchWithRetry] is [n <= 3]
    retried attempts, each followed by the next delay of the schedule, and a
    last attempt whose outcome is the result: the attempts before the last
    failed other than by cancellation, and the last succeeded, was
    cancelled, or was the fourth. *)
Theorem fetchWithRetry_stops_at_first_final_attempt (net : Network) (url : Url) :
  exists n,
    (n <= 3)%nat /\
    (fetchWithRetry net url 0).1 =
      flat_map (fun d => [EFetch url; ESleep d]) (take n retryDelays) ++ [EFetch url] /\
    (fetchWithRetry net url 0).2 = tryFetch (net url n) /\
    (forall j, (j < n)%nat ->
       exists e, tryFetch (net url j) = Throw e /\ isAbortError e = false) /\
    (n = 3%nat \/
     (exists v, tryFetch (net url n) = Ok v) \/
     (exists e, tryFetch (net url n) = Throw e /\ isAbortError e = true)).
Proof.
  destruct (fetchWithRetry_shape net url 0) as (n & Hn & Htrace & Hres & Hretried & Hlast).
  simpl in *. exists n. split; [lia|]. split; [exact Htrace|].
  split; [exact Hres|]. split.
  - intros j Hj. apply Hretried. lia.
  - destruct Hlast as [H|H]; [left; lia | right; exact H].
Qed.

(** X2.  Whatever the network does, [fetchWithRetry] makes between one and
    four attempts, sleeps exactly the first delays of the schedule between
    them, 8000 ms at most in total, and settles as its last attempt did. *)
Theorem fetchWithRetry_bounded (net : Network) (url : Url) :
  let run := fetchWithRetry net url 0 in
  (1 <= attempts run.1 <= 4)%nat /\
  sleeps run.1 = take (attempts run.1 - 1) retryDelays /\
  0 <= sleepTotal run.1 <= 8000 /\
  run.2 = tryFetch (net url (attempts run.1 - 1)%nat).
Proof.
  intros run. subst run.
  destruct (fetchWithRetry_shape net url 0) as (n & Hn & Htrace & Hres & _ & _).
  change (drop 0 retryDelays) with retryDelays in Htrace.
  change (0 + n)%nat with n in Hn, Hres.
  change (length retryDelays) with 3%nat in Hn.
  rewrite Hres. unfold sleepTotal. rewrite Htrace.
  rewrite attempts_retries, sleeps_retries.
  assert (length (take n retryDelays) = n) as Hlen.
  { rewrite length_take. change (length retryDelays) with 3%nat. lia. }
  rewrite Hlen. replace (S n - 1)%nat with n by lia.
  split; [lia|]. split; [reflexivity|]. split; [|reflexivity].
  destruct n as [|[|[|[|n]]]]; simpl; lia.
Qed.

(** After retried attempts the run continues as a run from the next retry
    count does. *)
Lemma fetchWithRetry_after_retries (net : Network) (url : Url) (n k : nat) :
  (k + n <= length retryDelays)%nat ->
  (forall j, (k <= j < k + n)%nat ->
     exists e, tryFetch (net url j) = Throw e /\ isAbortError e = false) ->
  fetchWithRetry net url k =
  (flat_map (fun d => [EFetch url; ESleep d]) (take n (drop k retryDelays)) ++
     (fetchWithRetry net url (k + n)).1,
   (fetchWithRetry net url (k + n)).2).
Proof.
  revert k. induction n as [|n IH]; intros k Hk Hfail.
  - rewrite Nat.add_0_r. destruct (fetchWithRetry net url k). reflexivity.
  - destruct (Hfail k ltac:(lia)) as (e & Htry & Ha).
    rewrite (fetchWithRetry_retry net url k e Htry Ha) by lia.
    rewrite (IH (S k)) by (try lia; intros j Hj; apply Hfail; lia).
    replace (S k + n)%nat with (k + S n)%nat by lia.
    destruct (lookup_lt_is_Some_2 retryDelays k ltac:(lia)) as [d Hd].
    rewrite (drop_S _ _ _ Hd), nth_lookup, Hd. reflexivity.
Qed.

(** ** [authenticate] *)

(** X3.  [authenticate] returns [true] exactly when one of the at most four
    attempts, all earlier ones having failed other than by cancellation, is
    answered 2xx with a JSON body whose [user_info] is truthy and has [auth]
    equal to the number 1; it then stores that [user_info].  Whenever it
    returns [false], whatever was thrown on the way, [userInfo] is left as it
    was. *)
Theorem authenticate_true_iff (net : Network) (config : XtreamConfig) (userInfo : JSV) :
  (forall n d,
     (n <= 3)%nat ->
     (forall j, (j < n)%nat ->
        exists e, tryFetch (net (loginUrl config) j) = Throw e /\ isAbortError e = false) ->
     tryFetch (net (loginUrl config) n) = Ok d ->
     truthy (propOf d "user_info") = true ->
     strict_eq_one (propOf (propOf d "user_info") "auth") = true ->
     authenticate net config userInfo =
       (flat_map (fun ms => [EFetch (loginUrl config); ESleep ms]) (take n retryDelays)
          ++ [EFetch (loginUrl config)],
        true, propOf d "user_info")) /\
  ((authenticate net config userInfo).1.2 = true ->
   exists n d,
     (n <= 3)%nat /\
     (forall j, (j < n)%nat ->
        exists e, tryFetch (net (loginUrl config) j) = Throw e /\ isAbortError e = false) /\
     tryFetch (net (loginUrl config) n) = Ok d /\
     truthy (propOf d "user_info") = true /\
     strict_eq_one (propOf (propOf d "user_info") "auth") = true /\
     (authenticate net config userInfo).2 = propOf d "user_info") /\
  ((authenticate net config userInfo).1.2 = false ->
   (authenticate net config userInfo).2 = userInfo).
Proof.
  split; [|split].
  - intros n d Hn Hfail Hok Htruthy Hauth. unfold authenticate.
    rewrite (fetchWithRetry_after_retries net (loginUrl config) n 0)
      by (simpl; try lia; intros j Hj; apply Hfail; lia).
    change (0 + n)%nat with n. rewrite (fetchWithRetry_ok _ _ _ _ Hok).
    cbn [fst snd bind].
    assert (getProp d "user_info" = Ok (propOf d "user_info")) as ->.
    { destruct d; try reflexivity; discriminate. }
    rewrite Htruthy, Hauth. reflexivity.
  - unfold authenticate.
    destruct (fetchWithRetry_shape net (loginUrl config) 0)
      as (n & Hn & _ & Hres & Hretried & _).
    change (0 + n)%nat with n in *. change (length retryDelays) with 3%nat in Hn.
    rewrite Hres.
    destruct (tryFetch (net (loginUrl config) n)) as [d|e] eqn:Htry;
      cbn [bind]; [|discriminate].
    destruct (getProp d "user_info") as [u|e] eqn:Hu; [|discriminate].
    assert (u = propOf d "user_info") as ->.
    { destruct d; try discriminate; injection Hu as <-; reflexivity. }
    destruct (truthy (propOf d "user_info")) eqn:Ht; [|discriminate].
    destruct (strict_eq_one (propOf (propOf d "user_info") "auth")) eqn:Hone;
      [|discriminate].
    intros _. exists n, d. split; [lia|]. split.
    { intros j Hj. apply Hretried. lia. }
    repeat split; assumption.
  - unfold authenticate.
    destruct (bind _ _) as [u|e]; [|reflexivity].
    destruct (truthy u && strict_eq_one (propOf u "auth")); [discriminate|reflexivity].
Qed.

Lemma authenticate_true_iff_witness :
  authenticate
    (fun _ k => if Nat.eqb k 0 then Responded 503 (BodyJson JNull)
                else Responded 200 (BodyJson (JObj [("user_info", JObj [("auth", JNum (num 1))])])))
    (mkConfig "h" "u" "p") JNull =
  ([EFetch (loginUrl (mkConfig "h" "u" "p")); ESleep 1000;
    EFetch (loginUrl (mkConfig "h" "u" "p"))],
   true, JObj [("auth", JNum (num 1))]).
Proof.
  refine (proj1 (authenticate_true_iff
            (fun _ k => if Nat.eqb k 0 then Responded 503 (BodyJson JNull)
                        else Responded 200
                               (BodyJson (JObj [("user_info", JObj [("auth", JNum (num 1))])])))
            (mkConfig "h" "u" "p") JNull) 1%nat
            (JObj [("user_info", JObj [("auth", JNum (num 1))])]) _ _ _ _ _);
    try reflexivity; try lia.
  intros j Hj. assert (j = 0%nat) as -> by lia. eexists. split; reflexivity.
Defined.

(** ** Stream URLs *)

Lemma append_cancel_l (s a b : string) : s +:+ a = s +:+ b -> a = b.
Proof.
  induction s as [|c s IH]; simpl; intros H; [exact H|].
  injection H as H. exact (IH H).
Qed.

(** X4.  For fixed credentials, each of the three URL builders sends
    different ids to different URLs, and a live, a movie and a series URL
    never coincide. *)
Theorem stream_urls_distinct (config : XtreamConfig) (a b : ContentId) :
  (getLiveStreamUrl config a = getLiveStreamUrl config b -> idString a = idString b) /\
  (getMovieStreamUrl config a = getMovieStreamUrl config b -> idString a = idString b) /\
  (getSeriesStreamUrl config a = getSeriesStreamUrl config b -> idString a = idString b) /\
  getLiveStreamUrl config a <> getMovieStreamUrl config b /\
  getLiveStreamUrl config a <> getSeriesStreamUrl config b /\
  getMovieStreamUrl config a <> getSeriesStreamUrl config b.
Proof.
  unfold getLiveStreamUrl, getMovieStreamUrl, getSeriesStreamUrl.
  repeat split; intros H; apply append_cancel_l in H;
    try (simpl in H; discriminate);
    do 5 (apply append_cancel_l in H); exact H.
Qed.

Lemma stream_urls_distinct_witness :
  idString (IdNum 7) = idString (IdStr "7").
Proof.
  refine (proj1 (stream_urls_distinct (mkConfig "http://h" "u" "p") (IdNum 7) (IdStr "7")) _).
  reflexivity.
Defined.

(** ** Live-stream requests in flight *)

Lemma cacheGet_absent (key : string) (now : Z) (c : gmap string CacheEntry) :
  c !! key = None -> cacheGet key now c = (JNull, c).
Proof. intros H. unfold cacheGet. rewrite H. reflexivity. Qed.

Lemma getLiveStreamsEach_joined (urlParses : string -> bool) (config : XtreamConfig)
    (category_id : option string) (nows : list Z) (svc : XtreamService) (p : nat) :
  cache svc !! streamsKey category_id = None ->
  pendingRequests svc !! ("pending_" +:+ streamsKey category_id) = Some p ->
  (getLiveStreamsEach urlParses config category_id nows svc).1 =
    List.map (fun _ => Promise p) nows /\
  (getLiveStreamsEach urlParses config category_id nows svc).2 = svc.
Proof.
  intros Hc Hp. induction nows as [|now nows IH]; simpl; [done|].
  assert (getLiveStreams urlParses config category_id now svc = (Promise p, svc)) as ->.
  { unfold getLiveStreams. rewrite (cacheGet_absent _ _ _ Hc). simpl. rewrite Hp.
    destruct svc. reflexivity. }
  simpl. destruct IH as [-> ->]. done.
Qed.

Lemma getLiveStreams_first (urlParses : string -> bool) (config : XtreamConfig)
    (category_id : option string) (now : Z) (svc : XtreamService) (url : Url) :
  streamsUrl urlParses config category_id = Ok url ->
  cache svc !! streamsKey category_id = None ->
  pendingRequests svc !! ("pending_" +:+ streamsKey category_id) = None ->
  getLiveStreams urlParses config category_id now svc =
  (Promise (length (requests svc)),
   mkService (cache svc)
     (<["pending_" +:+ streamsKey category_id := length (requests svc)]>
        (pendingRequests svc))
     (requests svc ++
        [mkRequest url
           (StreamsHandlers (streamsKey category_id)
              ("pending_" +:+ streamsKey category_id)) false])).
Proof.
  intros Hurl Hc Hp. unfold getLiveStreams. rewrite (cacheGet_absent _ _ _ Hc). simpl.
  rewrite Hp, Hurl. reflexivity.
Qed.

(** X5.  With a base URL that parses and nothing cached or pending for a
    category, any number of callers of [getLiveStreams], calling one after
    the other before the request settles, are all handed the promise of one
    request: the first call starts it and the later calls add no upstream
    call. *)
Theorem getLiveStreams_shares_one_request (urlParses : string -> bool)
    (config : XtreamConfig) (category_id : option string) (now : Z) (nows : list Z)
    (svc : XtreamService) (url : Url) :
  streamsUrl urlParses config category_id = Ok url ->
  cache svc !! streamsKey category_id = None ->
  pendingRequests svc !! ("pending_" +:+ streamsKey category_id) = None ->
  let r := getLiveStreamsEach urlParses config category_id (now :: nows) svc in
  r.1 = List.map (fun _ => Promise (length (requests svc))) (now :: nows) /\
  requests r.2 =
    requests svc ++ [mkRequest url
                       (StreamsHandlers (streamsKey category_id)
                          ("pending_" +:+ streamsKey category_id)) false] /\
  length (inFlight url r.2) = S (length (inFlight url svc)).
Proof.
  intros Hurl Hc Hp r. subst r. cbn [getLiveStreamsEach].
  rewrite (getLiveStreams_first _ _ _ _ _ _ Hurl Hc Hp).
  cbn [fst snd].
  edestruct (getLiveStreamsEach_joined urlParses config category_id nows) as [-> ->];
    [exact Hc | apply lookup_insert_eq |].
  cbn [requests cache pendingRequests List.map]. split; [reflexivity|].
  split; [reflexivity|].
  unfold inFlight. cbn [requests]. rewrite List.filter_app, length_app. simpl.
  rewrite bool_decide_eq_true_2 by reflexivity. simpl. lia.
Qed.

Lemma getLiveStreams_shares_one_request_witness :
  (getLiveStreamsEach exampleParser (mkConfig "http://h" "u" "p") None [0; 5; 9]
     newService).1 =
  [Promise 0; Promise 0; Promise 0].
Proof.
  refine (proj1 (getLiveStreams_shares_one_request exampleParser
                   (mkConfig "http://h" "u" "p") None 0 [5; 9] newService
                   (mkUrl "http://h/player_api.php"
                      [("username", "u"); ("password", "p");
                       ("action", "get_live_streams")]) _ _ _)); reflexivity.
Defined.

(** X6.  With a base URL that parses, the request [getLiveStreams]
    registered is unregistered when it settles, either way.  If it failed,
    the cache is as before and the next caller starts a new upstream call;
    if it succeeded, the value is cached for ten minutes from the time it
    settled. *)
Theorem getLiveStreams_settled_request_is_released (urlParses : string -> bool)
    (config : XtreamConfig) (category_id : option string) (now later again : Z)
    (outcome : Result JSV) (svc : XtreamService) (url : Url) :
  streamsUrl urlParses config category_id = Ok url ->
  cache svc !! streamsKey category_id = None ->
  pendingRequests svc !! ("pending_" +:+ streamsKey category_id) = None ->
  let started := (getLiveStreams urlParses config category_id now svc).2 in
  let settled := settle (length (requests svc)) outcome later started in
  pendingRequests settled !! ("pending_" +:+ streamsKey category_id) = None /\
  (forall e, outcome = Throw e ->
     cache settled = cache svc /\
     (getLiveStreams urlParses config category_id again settled).1 =
       Promise (S (length (requests svc))) /\
     length (requests (getLiveStreams urlParses config category_id again settled).2) =
       S (S (length (requests svc)))) /\
  (forall v, outcome = Ok v ->
     cache settled !! streamsKey category_id =
       Some (mkCacheEntry v later (later + 600000))).
Proof.
  intros Hurl Hc Hp started settled.
  subst settled started. rewrite (getLiveStreams_first _ _ _ _ _ _ Hurl Hc Hp).
  unfold settle. cbn [requests snd].
  rewrite lookup_app_r by lia. rewrite Nat.sub_diag. cbn [lookup list_lookup].
  cbn [req_settled req_handlers req_url cache pendingRequests].
  destruct outcome as [v|e]; cbn [cache pendingRequests requests];
    (split; [apply lookup_delete_eq|]); split.
  - intros e [=].
  - intros v' [= <-]. apply lookup_insert_eq.
  - intros e' _. split; [reflexivity|].
    unfold getLiveStreams. cbn [cache pendingRequests requests].
    rewrite (cacheGet_absent _ _ _ Hc). simpl.
    rewrite lookup_delete_eq, Hurl. cbn [fst snd requests].
    rewrite length_app, length_insert, length_app. simpl. split; [f_equal|]; lia.
  - intros v [=].
Qed.

Lemma getLiveStreams_settled_request_is_released_witness :
  pendingRequests
    (settle 0 (Throw (ErrorObj "TypeError" "Failed to fetch")) 9
       (getLiveStreams exampleParser (mkConfig "http://h" "u" "p") None 0 newService).2)
    !! ("pending_" +:+ streamsKey None) = None.
Proof.
  refine (proj1 (getLiveStreams_settled_request_is_released exampleParser
                   (mkConfig "http://h" "u" "p") None 0 9 10
                   (Throw (ErrorObj "TypeError" "Failed to fetch")) newService
                   (mkUrl "http://h/player_api.php"
                      [("username", "u"); ("password", "p");
                       ("action", "get_live_streams")]) _ _ _)); reflexivity.
Defined.

(** ** Serving from the cache *)

Lemma truthy_JNull : truthy JNull = false.
Proof. reflexivity. Qed.

Lemma missesCache_newService (m : Method) (now : Z) :
  missesCache m now newService /\ nothingPending m newService.
Proof.
  unfold missesCache, nothingPending, cacheGet, newService. simpl.
  rewrite lookup_empty. split; [reflexivity|]. destruct m; try exact I.
  apply lookup_empty.
Qed.

(** X7.  What the three methods do with a cached value, the base URL being
    one that parses.  After a first call on a fresh client was answered with
    [v] at time [later], a second call before the method's duration has
    passed is served [v] from the cache without an upstream call only if
    [v] is truthy: a falsy value ([null], [false], [0], the empty string) is
    cached but never served, and the call starts a new request, as does any
    call once the duration has passed. *)
Theorem cached_value_served_iff_truthy (urlParses : string -> bool) (net : Network)
    (config : XtreamConfig) (m : Method) (now later again : Z) (status : Z) (v : JSV)
    (url : Url) :
  methodUrl urlParses config m = Ok url ->
  net url 0%nat = Responded status (BodyJson v) ->
  response_ok status = true ->
  exists svc,
    callAndAwait urlParses net config m now later newService =
      Some ([EFetch url], Ok v, svc) /\
    length (requests svc) = 1%nat /\
    (again < later + CACHE_DURATION (methodKind m) -> truthy v = true ->
     call urlParses config m again svc = (Value v, svc)) /\
    (truthy v = false \/ later + CACHE_DURATION (methodKind m) <= again ->
     (call urlParses config m again svc).1 = Promise 1 /\
     length (requests (call urlParses config m again svc).2) = 2%nat).
Proof.
  intros Hurl Hnet Hok.
  destruct (missesCache_newService m now) as [Hmiss Hpending].
  rewrite (callAndAwait_miss _ _ _ _ _ _ _ _ Hurl Hmiss Hpending).
  assert (tryFetch (net url 0%nat) = Ok v) as Htry.
  { rewrite Hnet. simpl. rewrite Hok. reflexivity. }
  rewrite (fetchWithRetry_ok _ _ _ _ Htry). cbn [fst snd].
  eexists. split; [reflexivity|].
  unfold cacheGet, newService. cbn [cache requests pendingRequests].
  rewrite lookup_empty. cbn [snd length].
  destruct m as [category_id|stream_id limit|movie_id]; simpl in Hurl;
    unfold settle; cbn [requests app lookup list_lookup req_settled req_handlers req_url
                        cache pendingRequests methodHandlers];
    (split; [reflexivity|]); split.
  - intros Hfresh Htruthy. unfold call, getLiveStreams, cacheGet.
    cbn [cache pendingRequests requests]. unfold cacheSet.
    rewrite lookup_insert_eq. cbn [expiresAt data].
    rewrite bool_decide_eq_false_2 by (simpl in Hfresh; simpl; lia).
    rewrite Htruthy. reflexivity.
  - intros Hstale. unfold call, getLiveStreams, cacheGet.
    cbn [cache pendingRequests requests]. unfold cacheSet.
    rewrite lookup_insert_eq. cbn [expiresAt data].
    case_bool_decide as Hexp.
    + rewrite truthy_JNull, lookup_delete_eq, Hurl. split; reflexivity.
    + destruct Hstale as [Hfalsy|Hlate]; [|simpl in *; lia].
      rewrite Hfalsy, lookup_delete_eq, Hurl. split; reflexivity.
  - intros Hfresh Htruthy. unfold call, getEPG, cacheGet.
    cbn [cache pendingRequests requests]. unfold cacheSet.
    rewrite lookup_insert_eq. cbn [expiresAt data].
    rewrite bool_decide_eq_false_2 by (simpl in Hfresh; simpl; lia).
    rewrite Htruthy. reflexivity.
  - intros Hstale. unfold call, getEPG, cacheGet.
    cbn [cache pendingRequests requests]. unfold cacheSet.
    rewrite lookup_insert_eq. cbn [expiresAt data].
    case_bool_decide as Hexp.
    + rewrite truthy_JNull, Hurl. split; reflexivity.
    + destruct Hstale as [Hfalsy|Hlate]; [|simpl in *; lia].
      rewrite Hfalsy, Hurl. split; reflexivity.
  - intros Hfresh Htruthy. unfold call, getMovieInfo, cacheGet.
    cbn [cache pendingRequests requests]. unfold cacheSet.
    rewrite lookup_insert_eq. cbn [expiresAt data].
    rewrite bool_decide_eq_false_2 by (simpl in Hfresh; simpl; lia).
    rewrite Htruthy. reflexivity.
  - intros Hstale. unfold call, getMovieInfo, cacheGet.
    cbn [cache pendingRequests requests]. unfold cacheSet.
    rewrite lookup_insert_eq. cbn [expiresAt data].
    case_bool_decide as Hexp.
    + rewrite truthy_JNull, Hurl. split; reflexivity.
    + destruct Hstale as [Hfalsy|Hlate]; [|simpl in *; lia].
      rewrite Hfalsy, Hurl. split; reflexivity.
Qed.

Lemma cached_value_served_iff_truthy_witness :
  exists svc,
    callAndAwait exampleParser (fun _ _ => Responded 200 (BodyJson JNull))
      (mkConfig "http://h" "u" "p") (EPG (IdNum 5) 24) 0 1 newService =
      Some ([EFetch (mkUrl "http://h/player_api.php"
                       [("username", "u"); ("password", "p"); ("action", "get_epg");
                        ("stream_id", "5"); ("limit", "24")])], Ok JNull, svc) /\
    length (requests svc) = 1%nat /\
    (2 < 1 + CACHE_DURATION (methodKind (EPG (IdNum 5) 24)) -> truthy JNull = true ->
     call exampleParser (mkConfig "http://h" "u" "p") (EPG (IdNum 5) 24) 2 svc =
       (Value JNull, svc)) /\
    (truthy JNull = false \/ 1 + CACHE_DURATION (methodKind (EPG (IdNum 5) 24)) <= 2 ->
     (call exampleParser (mkConfig "http://h" "u" "p") (EPG (IdNum 5) 24) 2 svc).1 =
       Promise 1 /\
     length (requests (call exampleParser (mkConfig "http://h" "u" "p")
                         (EPG (IdNum 5) 24) 2 svc).2) = 2%nat).
Proof.
  refine (cached_value_served_iff_truthy exampleParser
            (fun _ _ => Responded 200 (BodyJson JNull))
            (mkConfig "http://h" "u" "p") (EPG (IdNum 5) 24) 0 1 2 200 JNull
            (mkUrl "http://h/player_api.php"
               [("username", "u"); ("password", "p"); ("action", "get_epg");
                ("stream_id", "5"); ("limit", "24")]) _ _ _); reflexivity.
Defined.

(** ** A base URL that does not parse *)

(** X20.  When [new URL] refuses the base URL (the empty default, for one),
    a call that misses the cache and joins no pending request is rejected
    with the [TypeError] before any fetch: nothing is requested, registered
    or cached.  A value in the cache is still served. *)
Theorem unparsable_base_url_rejects_before_fetch (urlParses : string -> bool)
    (net : Network) (config : XtreamConfig) (m : Method) (now later : Z)
    (svc : XtreamService) :
  urlParses (baseUrl config +:+ "/player_api.php") = false ->
  (missesCache m now svc -> nothingPending m svc ->
   callAndAwait urlParses net config m now later svc =
     Some ([], Throw (ErrorObj "TypeError" "Invalid URL"),
           mkService (cacheGet (methodKey m) now (cache svc)).2
             (pendingRequests svc) (requests svc))) /\
  (forall v, (cacheGet (methodKey m) now (cache svc)).1 = v -> truthy v = true ->
   received (callAndAwait urlParses net config m now later svc) = Some (Ok v)).
Proof.
  intros Hbase. pose proof (methodUrl_refused urlParses config m Hbase) as Hurl.
  unfold missesCache, nothingPending. split.
  - intros Hmiss Hpending.
    destruct m as [category_id|stream_id limit|movie_id]; simpl in *;
      unfold callAndAwait, call, getLiveStreams, getEPG, getMovieInfo;
      destruct (cacheGet _ now (cache svc)) as [cached cache1]; simpl in Hmiss;
      rewrite Hmiss, ?Hpending, Hurl; reflexivity.
  - intros v Hv Htruthy.
    destruct m as [category_id|stream_id limit|movie_id]; simpl in *;
      unfold callAndAwait, call, getLiveStreams, getEPG, getMovieInfo;
      destruct (cacheGet _ now (cache svc)) as [cached cache1]; simpl in Hv; subst cached;
      rewrite Htruthy; reflexivity.
Qed.

Lemma unparsable_base_url_rejects_before_fetch_witness :
  callAndAwait exampleParser (fun _ _ => Responded 200 (BodyJson (JArr [])))
    (mkConfig "" "u" "p") (EPG (IdNum 5) 24) 0 1 newService =
  Some ([], Throw (ErrorObj "TypeError" "Invalid URL"), newService).
Proof.
  refine (proj1 (unparsable_base_url_rejects_before_fetch exampleParser
            (fun _ _ => Responded 200 (BodyJson (JArr [])))
            (mkConfig "" "u" "p") (EPG (IdNum 5) 24) 0 1 newService _) _ _);
    [reflexivity | | exact I].
  reflexivity.
Defined.

(** ** Cache keys, invalidation and the sweep *)

(** X8.  [clearCache(type)] deletes exactly the keys that start with the
    kind's name and nothing else.  For ['epg'] and ['streams'] these are all
    the entries the kind's method caches; the entries of the other methods
    are kept, whatever the kind cleared. *)
Theorem clearCache_scope (type : CacheKind) (c : gmap string CacheEntry) :
  (forall k, clearCache type c !! k =
             if startsWith k (kindName type) then None else c !! k) /\
  (forall m, methodKind m = type -> type <> movieInfo ->
             clearCache type c !! methodKey m = None) /\
  (forall m, methodKind m <> type ->
             clearCache type c !! methodKey m = c !! methodKey m).
Proof.
  split; [|split].
  - intros k. apply lookup_clearCache.
  - intros m <- Hm. apply clearCache_removes_kind. exact Hm.
  - intros m Hm. apply clearCache_keeps_other_kinds. exact Hm.
Qed.

Lemma clearCache_scope_witness :
  clearCache epg (cacheSet "epg_5_24" (JArr []) 300000 0 ∅) !! methodKey (EPG (IdNum 5) 24)
  = None.
Proof.
  refine (proj1 (proj2 (clearCache_scope epg (cacheSet "epg_5_24" (JArr []) 300000 0 ∅)))
            (EPG (IdNum 5) 24) _ _); [reflexivity | discriminate].
Defined.

(** X9.  A sweep cannot be observed through lookups made at or after its
    time: such a lookup returns the same value and leaves the same entry for
    its key whether or not the sweep ran; and two sweeps amount to one at the
    later of their times. *)
Theorem sweep_is_unobservable (c : gmap string CacheEntry) (key : string)
    (swept now t1 t2 : Z) :
  (swept <= now ->
   (cacheGet key now (cleanCache swept c)).1 = (cacheGet key now c).1 /\
   (cacheGet key now (cleanCache swept c)).2 !! key = (cacheGet key now c).2 !! key) /\
  cleanCache t2 (cleanCache t1 c) = cleanCache (Z.max t1 t2) c.
Proof.
  split.
  - intros Hle. unfold cacheGet. rewrite lookup_cleanCache.
    destruct (c !! key) as [e|] eqn:Hc;
      [|simpl; rewrite lookup_cleanCache, Hc; done].
    case_bool_decide as Hs.
    + rewrite bool_decide_eq_true_2 by lia. simpl.
      rewrite lookup_cleanCache, Hc, bool_decide_eq_true_2 by done.
      rewrite lookup_delete_eq. done.
    + case_bool_decide as Hn; simpl.
      * rewrite !lookup_delete_eq. done.
      * rewrite lookup_cleanCache, Hc, bool_decide_eq_false_2 by done. done.
  - apply map_eq. intros k. rewrite !lookup_cleanCache.
    destruct (c !! k) as [e|]; [|done].
    repeat case_bool_decide; try done; lia.
Qed.

Lemma sweep_is_unobservable_witness :
  (cacheGet "epg_5_24" 10 (cleanCache 7 (cacheSet "epg_5_24" JNull 5 0 ∅))).1 =
  (cacheGet "epg_5_24" 10 (cacheSet "epg_5_24" JNull 5 0 ∅)).1.
Proof.
  refine (proj1 (proj1 (sweep_is_unobservable (cacheSet "epg_5_24" JNull 5 0 ∅)
                          "epg_5_24" 7 10 0 0) _)).
  lia.
Defined.

(** X10.  Two calls that use the same cache key are calls of the same
    method: the keys of live-stream lists, EPG queries and movie-info
    queries never coincide.  Two movie-info calls with the same key request
    the same URL. *)
Theorem cache_keys_separate_kinds (urlParses : string -> bool) (config : XtreamConfig)
    (m1 m2 : Method) :
  methodKey m1 = methodKey m2 ->
  methodKind m1 = methodKind m2 /\
  (methodKind m1 = movieInfo ->
   methodUrl urlParses config m1 = methodUrl urlParses config m2).
Proof.
  destruct m1, m2; simpl; unfold streamsKey, epgKey, movieKey; intros H;
    try (simpl in H; discriminate); split; try reflexivity; try discriminate.
  intros _. apply (append_cancel_l "movie_") in H.
  unfold movieUrl. rewrite H. reflexivity.
Qed.

Lemma cache_keys_separate_kinds_witness :
  methodKind (MovieInfo (IdNum 7)) = methodKind (MovieInfo (IdStr "7")) /\
  (methodKind (MovieInfo (IdNum 7)) = movieInfo ->
   methodUrl exampleParser (mkConfig "http://h" "u" "p") (MovieInfo (IdNum 7)) =
   methodUrl exampleParser (mkConfig "http://h" "u" "p") (MovieInfo (IdStr "7"))).
Proof.
  refine (cache_keys_separate_kinds exampleParser (mkConfig "http://h" "u" "p")
            (MovieInfo (IdNum 7)) (MovieInfo (IdStr "7")) _).
  reflexivity.
Defined.

(** ** The progress store: what every medium it produces looks like *)

Lemma saveProgress_as_saveAll (f : Faults) (type : ContentType) (id : string)
    (pos dur : number) (now : Z) (ls : LocalStorage) :
  storeInv ls ->
  saveProgress f type id (JNum pos) (JNum dur) now ls =
  saveAll f
    (JArr (List.filter (fun x => negb (hasKey type id x)) (getAll f ls) ++
           [newEntry type id pos dur now])) ls.
Proof.
  intros Hls. destruct (getAll_inv f ls Hls) as [Hkeyed Hnd].
  destruct (remove_existing type id _ Hkeyed Hnd) as (index & Hfind & Hdel).
  unfold saveProgress. rewrite Hfind, Hdel. reflexivity.
Qed.

Lemma find_some_in (p : JSV -> Result bool) (l : list JSV) (e : JSV) :
  find p l = Ok (Some e) -> e ∈ l.
Proof.
  induction l as [|x l IH]; simpl; [discriminate|].
  destruct (p x) as [[|]|]; simpl; try discriminate.
  - intros [= ->]. apply list_elem_of_here.
  - intros H. apply list_elem_of_further, IH, H.
Qed.

Lemma find_none (type : ContentType) (id : string) (l : list JSV) :
  Forall (fun x => is_Some (keyOf x)) l ->
  Forall (fun x => hasKey type id x = false) l ->
  find (sameKey type id) l = Ok None.
Proof.
  induction 1 as [|x l Hx _ IH]; intros Hno; simpl; [reflexivity|].
  apply Forall_cons in Hno as [Hx' Hno].
  rewrite (sameKey_keyed type id x Hx), Hx'. simpl. apply IH, Hno.
Qed.

Lemma find_unique (type : ContentType) (id : string) (l : list JSV) (y : JSV) :
  Forall (fun x => is_Some (keyOf x)) l -> NoDup (List.map keyOf l) ->
  y ∈ l -> hasKey type id y = true ->
  find (sameKey type id) l = Ok (Some y).
Proof.
  induction 1 as [|x l Hx Hl IH]; intros Hnd Hin Hy; [inversion Hin|]. simpl.
  apply NoDup_cons in Hnd as [Hnotin Hnd].
  rewrite (sameKey_keyed type id x Hx). simpl.
  apply elem_of_cons in Hin as [->|Hin]; [rewrite Hy; reflexivity|].
  destruct (hasKey type id x) eqn:Hk; [|apply IH; assumption].
  exfalso. apply hasKey_true in Hk, Hy. apply Hnotin. rewrite Hk, <- Hy.
  apply list_elem_of_In, in_map, list_elem_of_In. exact Hin.
Qed.

Lemma filterR_keyed (type : ContentType) (id : string) (l : list JSV) :
  Forall (fun x => is_Some (keyOf x)) l ->
  filterR (fun item => let* b := sameKey type id item in Ok (negb b)) l =
  Ok (List.filter (fun x => negb (hasKey type id x)) l).
Proof.
  induction 1 as [|x l Hx _ IH]; simpl; [reflexivity|].
  rewrite (sameKey_keyed type id x Hx). simpl. rewrite IH. simpl.
  destruct (hasKey type id x); reflexivity.
Qed.

(** Whatever [saveAll] is given, the medium after is the one before or the
    serialization of valid entries, at most [MAX_ENTRIES] of them. *)
Lemma saveAll_medium (f : Faults) (d : JSV) (ls : LocalStorage) :
  (saveAll f d ls).2 = ls \/
  exists kept,
    (saveAll f d ls).2 = Some (Json (JArr (List.map jsonClone kept))) /\
    (length kept <= MAX_ENTRIES)%nat /\
    Forall (fun x => validItem x = true) kept.
Proof.
  unfold saveAll. destruct d; try (left; reflexivity).
  destruct (setItem_throws f); [left; reflexivity|]. right.
  eexists. split; [reflexivity|]. split; [|apply Forall_filter_true].
  etransitivity; [apply sublist_length, filter_sublist | apply sliceLast_length].
Qed.

(** The same of every operation of the store. *)
Lemma step_medium (ageInRange : Z -> number -> JSV -> bool) (ls : LocalStorage) (op : Op) :
  step ageInRange ls op = ls \/ step ageInRange ls op = None \/
  exists kept,
    step ageInRange ls op = Some (Json (JArr (List.map jsonClone kept))) /\
    (length kept <= MAX_ENTRIES)%nat /\
    Forall (fun x => validItem x = true) kept.
Proof.
  destruct op as [f type id position duration now|f type id|f|f maxAgeDays now]; simpl.
  - unfold saveProgress.
    destruct position; try (left; reflexivity).
    destruct duration; try (left; reflexivity).
    destruct (findIndex _ _); [|left; reflexivity].
    destruct (saveAll_medium f (JArr ((match a with Some i => delete i (getAll f ls)
                                       | None => getAll f ls end) ++
                                      [newEntry type id n n0 now])) ls) as [H|H];
      [left | right; right]; exact H.
  - unfold clearProgress. destruct (negb _); [left; reflexivity|].
    destruct (filterR _ _) as [filtered|]; [|left; reflexivity].
    destruct (saveAll_medium f (JArr filtered) ls) as [H|H];
      [left | right; right]; exact H.
  - unfold clearAll. destruct (removeItem_throws f); [left | right; left]; reflexivity.
  - unfold pruneOldEntries. destruct (le0 _); [left; reflexivity|].
    destruct (filterR _ _) as [filtered|]; [|left; reflexivity].
    destruct (saveAll_medium f (JArr filtered) ls) as [H|H];
      [left | right; right]; exact H.
Qed.

Lemma valid_clone_position (x : JSV) :
  validItem x = true ->
  propOf (jsonClone x) "position" = JNull \/
  exists q, propOf (jsonClone x) "position" = JNum (Finite q).
Proof.
  unfold validItem. destruct (truthy x); [|discriminate].
  intros H. apply andb_true_iff in H as [H _].
  apply andb_true_iff in H as [H _]. apply andb_true_iff in H as [H _].
  apply andb_true_iff in H as [_ Hpos].
  destruct x as [| |b|n|s|l|fs]; simpl in Hpos; try discriminate.
  destruct (assoc "position" fs) as [| | |n| | |] eqn:Hp; simpl in Hpos; try discriminate.
  rewrite assoc_jsonClone by congruence. rewrite Hp.
  destruct n; simpl; eauto.
Qed.

Section StoreHistories.

Variable StringToNumber : string -> number.
Variable ObjectToNumber : JSV -> number.
Variable ageInRange : Z -> number -> JSV -> bool.

Lemma history_stored (ops : list Op) :
  (length (stored (history ageInRange ops)) <= MAX_ENTRIES)%nat /\
  Forall (fun y => exists x, validItem x = true /\ y = jsonClone x)
    (stored (history ageInRange ops)).
Proof.
  unfold history.
  assert ((length (stored None) <= MAX_ENTRIES)%nat /\
          Forall (fun y => exists x, validItem x = true /\ y = jsonClone x) (stored None))
    as H by (split; [simpl; lia | constructor]).
  revert H. generalize (None : LocalStorage).
  induction ops as [|op ops IH]; intros ls Hls; simpl; [exact Hls|].
  apply IH.
  destruct (step_medium ageInRange ls op) as [-> | [-> | (kept & -> & Hlen & Hvalid)]].
  - exact Hls.
  - split; [simpl; lia | constructor].
  - unfold stored. rewrite getAll_array, List.length_map. split; [exact Hlen|].
    clear Hlen. induction Hvalid as [|x l Hx _ IHl]; simpl; constructor; eauto.
Qed.

(** X11.  After any history of store operations on an initially empty
    medium, the medium holds at most 100 entries, no two of them for the same
    [(type, id)], and each is the serialization of an entry that passed the
    shape check of [saveAll]. *)
Theorem store_is_bounded_and_keyed (ops : list Op) :
  (length (stored (history ageInRange ops)) <= 100)%nat /\
  NoDup (List.map keyOf (stored (history ageInRange ops))) /\
  Forall (fun y => exists x, validItem x = true /\ y = jsonClone x)
    (stored (history ageInRange ops)).
Proof.
  destruct (history_stored ops) as [Hlen Hvalid].
  split; [exact Hlen|]. split; [|exact Hvalid].
  apply (getAll_inv noFaults), history_inv.
Qed.

(** X12.  [getProgress] never returns a negative number: on any medium, even
    one written by hand, the number it returns is [NaN] or at least 0; and on
    every medium the store itself produced it is at least 0, whatever faults
    the read meets. *)
Theorem getProgress_is_never_negative (f : Faults) (type : ContentType) (id : string) :
  (forall ls, exists n,
     getProgress StringToNumber ObjectToNumber f type id ls = Ok n /\
     (n = NaN \/ ge0 n = true)) /\
  (forall ops, exists n,
     getProgress StringToNumber ObjectToNumber f type id (history ageInRange ops) = Ok n /\
     ge0 n = true).
Proof.
  split.
  - intros ls. unfold getProgress.
    destruct (negb (truthy (JStr id))); [eexists; split; [reflexivity|right; reflexivity]|].
    destruct (find (sameKey type id) (getAll f ls)) as [[e|]|err]; simpl;
      try (eexists; split; [reflexivity|right; reflexivity]).
    destruct (truthy e); [|eexists; split; [reflexivity|right; reflexivity]].
    eexists. split; [reflexivity|].
    destruct (ToNumber StringToNumber ObjectToNumber (propOf e "position")) as [| |q|];
      [left; reflexivity | right.. ];
      [apply (Math_max_0_ge0 NegInfinity) | apply (Math_max_0_ge0 (Finite q))
       | apply (Math_max_0_ge0 Infinity)]; discriminate.
  - intros ops. unfold getProgress.
    destruct (negb (truthy (JStr id))); [eexists; split; reflexivity|].
    destruct (find (sameKey type id) (getAll f (history ageInRange ops)))
      as [[e|]|err] eqn:Hfind; simpl; try (eexists; split; reflexivity).
    destruct (truthy e); [|eexists; split; reflexivity].
    eexists. split; [reflexivity|].
    apply find_some_in in Hfind.
    assert (e ∈ stored (history ageInRange ops)) as Hin.
    { unfold stored, getAll in *. simpl.
      destruct (getItem_throws f); [inversion Hfind | exact Hfind]. }
    destruct (history_stored ops) as [_ Hvalid].
    rewrite Forall_forall in Hvalid. destruct (Hvalid e Hin) as (x & Hx & ->).
    destruct (valid_clone_position x Hx) as [-> | [q ->]]; simpl.
    + reflexivity.
    + apply (Math_max_0_ge0 (Finite q)). discriminate.
Qed.

End StoreHistories.

(** ** The progress store: one write among the others *)

Lemma keyed_truthy (x : JSV) : is_Some (keyOf x) -> truthy x = true.
Proof. intros [k Hk]. destruct x; try discriminate. reflexivity. Qed.

Lemma propOf_jsonClone (x : JSV) (p : string) :
  propOf x p <> JUndefined -> propOf (jsonClone x) p = jsonClone (propOf x p).
Proof.
  destruct x as [| |b|n|s|l|fs]; simpl propOf at 1 3; try contradiction.
  apply assoc_jsonClone.
Qed.

Lemma stored_inv (ls : LocalStorage) :
  storeInv ls ->
  Forall (fun x => is_Some (keyOf x)) (stored ls) /\ NoDup (List.map keyOf (stored ls)).
Proof. apply getAll_inv. Qed.

(** Reading the position of a record of the key that the medium holds. *)
Lemma getProgress_of_record (StringToNumber : string -> number)
    (ObjectToNumber : JSV -> number) (type : ContentType) (id : string)
    (ls : LocalStorage) (y : JSV) :
  storeInv ls -> id <> "" -> y ∈ stored ls -> hasKey type id y = true ->
  getProgress StringToNumber ObjectToNumber noFaults type id ls =
  Ok (Math_max (num 0) (ToNumber StringToNumber ObjectToNumber (propOf y "position"))).
Proof.
  intros Hls Hid Hin Hy. destruct (stored_inv ls Hls) as [Hkeyed Hnd].
  unfold getProgress.
  assert (negb (truthy (JStr id)) = false) as ->.
  { simpl. destruct (String.eqb_spec id ""); [contradiction|reflexivity]. }
  fold (stored ls). rewrite (find_unique type id _ y Hkeyed Hnd Hin Hy). simpl.
  rewrite keyed_truthy; [reflexivity|].
  rewrite Forall_forall in Hkeyed. apply Hkeyed, Hin.
Qed.

Section OtherRecords.

Variable StringToNumber : string -> number.
Variable ObjectToNumber : JSV -> number.

(** X13.  While the store holds fewer than 100 records, saving progress for
    one [(type, id)] keeps every valid record of another key, and what
    [getProgress] returns for such a record with a finite position is the
    same before and after. *)
Theorem saveProgress_keeps_other_records (type type' : ContentType) (id id' : string)
    (pos dur : number) (now : Z) (ls : LocalStorage) (x : JSV) (q : Q) :
  storeInv ls ->
  (length (stored ls) < MAX_ENTRIES)%nat ->
  x ∈ stored ls -> validItem x = true -> hasKey type id x = false ->
  let after := (saveProgress noFaults type id (JNum pos) (JNum dur) now ls).2 in
  jsonClone x ∈ stored after /\
  (id' <> "" -> hasKey type' id' x = true -> propOf x "position" = JNum (Finite q) ->
   getProgress StringToNumber ObjectToNumber noFaults type' id' ls =
     Ok (Math_max (num 0) (Finite q)) /\
   getProgress StringToNumber ObjectToNumber noFaults type' id' after =
     Ok (Math_max (num 0) (Finite q))).
Proof.
  intros Hls Hlen Hin Hvalid Hother after.
  assert (jsonClone x ∈ stored after) as Hafter.
  { subst after. rewrite (saveProgress_as_saveAll _ _ _ _ _ _ _ Hls).
    unfold saveAll. cbn [setItem_throws noFaults snd].
    rewrite sliceLast_short.
    2:{ rewrite length_app. simpl.
        pose proof (sublist_length _ _
          (filter_sublist (fun y => negb (hasKey type id y)) (getAll noFaults ls))) as Hl.
        unfold stored in Hlen. lia. }
    cbn [jsonClone]. unfold stored. rewrite getAll_array.
    apply list_elem_of_In, in_map, filter_In. split; [|exact Hvalid].
    apply in_or_app. left. apply filter_In. split.
    - apply list_elem_of_In. exact Hin.
    - rewrite Hother. reflexivity. }
  split; [exact Hafter|].
  intros Hid' Hkey Hpos.
  assert (is_Some (keyOf x)) as Hkeyed by (apply validItem_keyed; exact Hvalid).
  split.
  - rewrite (getProgress_of_record _ _ type' id' ls x Hls Hid' Hin Hkey).
    rewrite Hpos. reflexivity.
  - rewrite (getProgress_of_record _ _ type' id' after (jsonClone x));
      [|apply saveProgress_inv; exact Hls | exact Hid' | exact Hafter
       |rewrite hasKey_jsonClone; assumption].
    rewrite propOf_jsonClone, Hpos by (rewrite Hpos; discriminate). reflexivity.
Qed.

End OtherRecords.

Lemma saveProgress_keeps_other_records_witness :
  jsonClone (newEntry series "7" (num 30) (num 60) 1) ∈
  stored (saveProgress noFaults movie "42" (JNum (num 120)) (JNum (num 3600)) 2
            (Some (Json (JArr [newEntry series "7" (num 30) (num 60) 1])))).2.
Proof.
  refine (proj1 (saveProgress_keeps_other_records (fun _ => NaN) (fun _ => NaN)
            movie series "42" "7" (num 120) (num 3600) 2
            (Some (Json (JArr [newEntry series "7" (num 30) (num 60) 1])))
            (newEntry series "7" (num 30) (num 60) 1) 30 _ _ _ _ _)).
  - split; [repeat constructor; eexists; reflexivity|].
    simpl. apply NoDup_singleton.
  - simpl. unfold MAX_ENTRIES. lia.
  - apply list_elem_of_here.
  - reflexivity.
  - reflexivity.
Defined.

(** X14.  When the store holds 100 valid records, none of them for the key
    being saved, [saveProgress] drops the first record of the array, the one
    written longest ago, keeps the other 99 in order and appends the new
    record. *)
Theorem saveProgress_evicts_oldest (type : ContentType) (id : string)
    (pos dur : number) (now : Z) (ls : LocalStorage) (first : JSV) (rest : list JSV) :
  storeInv ls ->
  stored ls = first :: rest ->
  length rest = 99%nat ->
  Forall (fun x => validItem x = true) rest ->
  Forall (fun x => hasKey type id x = false) (first :: rest) ->
  saveProgress noFaults type id (JNum pos) (JNum dur) now ls =
  (Ok tt,
   Some (Json (JArr (List.map jsonClone rest ++
                     [jsonClone (newEntry type id pos dur now)])))).
Proof.
  intros Hls Hstored Hlen Hvalid Hother.
  rewrite (saveProgress_as_saveAll _ _ _ _ _ _ _ Hls).
  fold (stored ls). rewrite Hstored.
  rewrite (filter_all (fun x => negb (hasKey type id x)) (first :: rest)).
  2:{ eapply Forall_impl; [exact Hother|]. intros y Hy. simpl. rewrite Hy. reflexivity. }
  unfold saveAll. cbn [setItem_throws noFaults].
  assert (sliceLast MAX_ENTRIES ((first :: rest) ++ [newEntry type id pos dur now]) =
          rest ++ [newEntry type id pos dur now]) as ->.
  { unfold sliceLast, MAX_ENTRIES. simpl length. rewrite length_app, Hlen. reflexivity. }
  rewrite List.filter_app, (filter_all validItem rest Hvalid). simpl List.filter.
  rewrite validItem_newEntry. cbn [jsonClone]. rewrite List.map_app. reflexivity.
Qed.

Lemma saveProgress_evicts_oldest_witness :
  saveProgress noFaults movie "new" (JNum (num 1)) (JNum (num 2)) 3
    (Some (Json (JArr (newEntry series "old" (num 1) (num 2) 0 ::
                       List.map (fun n => newEntry movie (pretty n) (num 1) (num 2) 0)
                         (seq 0 99))))) =
  (Ok tt,
   Some (Json (JArr (List.map jsonClone
                       (List.map (fun n => newEntry movie (pretty n) (num 1) (num 2) 0)
                          (seq 0 99)) ++
                     [jsonClone (newEntry movie "new" (num 1) (num 2) 3)])))).
Proof.
  refine (saveProgress_evicts_oldest movie "new" (num 1) (num 2) 3
            (Some (Json (JArr (newEntry series "old" (num 1) (num 2) 0 ::
                               List.map (fun n => newEntry movie (pretty n) (num 1) (num 2) 0)
                                 (seq 0 99)))))
            (newEntry series "old" (num 1) (num 2) 0)
            (List.map (fun n => newEntry movie (pretty n) (num 1) (num 2) 0) (seq 0 99))
            _ _ _ _ _).
  - split.
    + apply Forall_forall. intros y Hy. apply list_elem_of_In in Hy.
      destruct Hy as [<-|Hy]; [eexists; reflexivity|].
      apply in_map_iff in Hy as (n & <- & _). eexists. reflexivity.
    + apply (bool_decide_eq_true_1 (NoDup _)). vm_compute. reflexivity.
  - reflexivity.
  - reflexivity.
  - apply Forall_forall. intros y Hy. apply list_elem_of_In, in_map_iff in Hy as (n & <- & _).
    reflexivity.
  - apply (bool_decide_eq_true_1 (Forall _ _)). vm_compute. reflexivity.
Defined.

(** ** The progress store: clearing, pruning and failures *)

Lemma filterR_spec (p : JSV -> Result bool) (l r : list JSV) :
  filterR p l = Ok r -> forall x, x ∈ r -> x ∈ l /\ p x = Ok true.
Proof.
  revert r. induction l as [|a l IH]; simpl; intros r H x Hx.
  - injection H as <-. inversion Hx.
  - destruct (p a) as [b|e] eqn:Hpa; simpl in H; [|discriminate].
    destruct (filterR p l) as [r'|e]; simpl in H; [|discriminate].
    injection H as <-. destruct b.
    + apply elem_of_cons in Hx as [->|Hx].
      * split; [apply list_elem_of_here | exact Hpa].
      * destruct (IH r' eq_refl x Hx) as [Hin Hp].
        split; [apply list_elem_of_further, Hin | exact Hp].
    + destruct (IH r' eq_refl x Hx) as [Hin Hp].
      split; [apply list_elem_of_further, Hin | exact Hp].
Qed.

Lemma elem_of_sublist (l1 l2 : list JSV) (x : JSV) :
  l1 `sublist_of` l2 -> x ∈ l1 -> x ∈ l2.
Proof.
  induction 1 as [|y l1 l2 _ IH|y l1 l2 _ IH]; intros Hx; [exact Hx| |].
  - apply elem_of_cons in Hx as [->|Hx];
      [apply list_elem_of_here | apply list_elem_of_further, IH, Hx].
  - apply list_elem_of_further, IH, Hx.
Qed.

Lemma filterR_throws (p : JSV -> Result bool) (l : list JSV) (x : JSV) (e : Thrown) :
  x ∈ l -> p x = Throw e -> exists e', filterR p l = Throw e'.
Proof.
  intros Hin Hp. induction l as [|a l IH]; [inversion Hin|]. simpl.
  apply elem_of_cons in Hin as [<-|Hin].
  - rewrite Hp. eexists. reflexivity.
  - destruct (p a) as [b|e0]; simpl; [|eexists; reflexivity].
    destruct (IH Hin) as [e' ->]. eexists. reflexivity.
Qed.

Section ClearingAndPruning.

Variable StringToNumber : string -> number.
Variable ObjectToNumber : JSV -> number.
Variable ageInRange : Z -> number -> JSV -> bool.

(** X15.  On a medium the store keeps, [clearProgress(type, id)] with a
    non-empty id succeeds; afterwards no entry is a record of [(type, id)]
    and [getProgress(type, id)] returns 0, while every valid record of
    another key is still stored, provided the array had at most 100
    entries. *)
Theorem clearProgress_then_getProgress (type : ContentType) (id : string)
    (ls : LocalStorage) :
  storeInv ls -> id <> "" ->
  let r := clearProgress noFaults type id ls in
  r.1 = Ok tt /\
  Forall (fun y => hasKey type id y = false) (stored r.2) /\
  getProgress StringToNumber ObjectToNumber noFaults type id r.2 = Ok (num 0) /\
  ((length (stored ls) <= MAX_ENTRIES)%nat ->
   forall x, x ∈ stored ls -> validItem x = true -> hasKey type id x = false ->
             jsonClone x ∈ stored r.2).
Proof.
  intros Hls Hid r. destruct (stored_inv ls Hls) as [Hkeyed _].
  assert (r = (Ok tt,
               Some (Json (JArr (List.map jsonClone
                 (List.filter validItem
                    (sliceLast MAX_ENTRIES
                       (List.filter (fun x => negb (hasKey type id x)) (stored ls))))))))) as ->.
  { subst r. unfold clearProgress.
    assert (negb (truthy (JStr id)) = false) as ->.
    { simpl. destruct (String.eqb_spec id ""); [contradiction|reflexivity]. }
    fold (stored ls). rewrite (filterR_keyed type id _ Hkeyed). reflexivity. }
  cbn [fst snd]. unfold stored at 1 2 4. rewrite !getAll_array.
  set (kept := List.filter validItem _).
  assert (Forall (fun y => is_Some (keyOf y)) kept) as Hk.
  { apply Forall_valid_keyed, Forall_filter_true. }
  assert (Forall (fun y => hasKey type id y = false) kept) as Hno.
  { eapply Forall_of_sublist; [|apply (Forall_filter_negb_hasKey type id (stored ls))].
    etransitivity; [apply filter_sublist | apply sublist_drop]. }
  assert (Forall (fun y => hasKey type id y = false) (List.map jsonClone kept)) as Hno'.
  { clear -Hk Hno. induction kept as [|y l IH]; simpl; [constructor|].
    apply Forall_cons in Hk as [Hy Hk]. apply Forall_cons in Hno as [Hy' Hno].
    constructor; [rewrite hasKey_jsonClone; assumption | apply IH; assumption]. }
  split; [reflexivity|]. split; [exact Hno'|]. split.
  - unfold getProgress. rewrite getAll_array.
    assert (negb (truthy (JStr id)) = false) as ->.
    { simpl. destruct (String.eqb_spec id ""); [contradiction|reflexivity]. }
    rewrite (find_none type id _ (Forall_keyed_jsonClone _ Hk) Hno'). reflexivity.
  - intros Hlen x Hin Hvalid Hother. subst kept.
    rewrite sliceLast_short.
    2:{ pose proof (sublist_length _ _
          (filter_sublist (fun y => negb (hasKey type id y)) (stored ls))).
        unfold stored in *. lia. }
    apply list_elem_of_In, in_map, filter_In. split; [|exact Hvalid].
    apply filter_In. split; [apply list_elem_of_In; exact Hin|].
    rewrite Hother. reflexivity.
Qed.

(** X16.  [pruneOldEntries] rejects a [maxAgeDays] that is zero or negative
    and then leaves the medium as it is.  When it succeeds, every entry left
    is the serialization of a stored entry that passed the age test and the
    shape check: pruning adds nothing and keeps nothing the age test
    refused. *)
Theorem pruneOldEntries_only_removes (f : Faults) (maxAgeDays : number) (now : Z)
    (ls : LocalStorage) :
  (le0 maxAgeDays = true ->
   pruneOldEntries ageInRange f maxAgeDays now ls =
     (Throw (ErrorObj "Error" "Invalid maxAgeDays value"), ls)) /\
  ((pruneOldEntries ageInRange f maxAgeDays now ls).1 = Ok tt ->
   forall y, y ∈ stored (pruneOldEntries ageInRange f maxAgeDays now ls).2 ->
     exists x, x ∈ stored ls /\ validItem x = true /\
               ageInRange now maxAgeDays (propOf x "timestamp") = true /\
               y = jsonClone x).
Proof.
  split.
  - intros H. unfold pruneOldEntries. rewrite H. reflexivity.
  - unfold pruneOldEntries. destruct (le0 maxAgeDays); [discriminate|].
    destruct (filterR _ (getAll f ls)) as [filtered|e] eqn:Hf; [|discriminate].
    unfold saveAll. destruct (setItem_throws f); [discriminate|].
    intros _ y Hy. unfold stored in Hy. cbn [snd jsonClone] in Hy.
    rewrite getAll_array in Hy.
    apply list_elem_of_In, in_map_iff in Hy as (x & <- & Hx).
    apply filter_In in Hx as [Hx Hvalid].
    assert (x ∈ filtered) as Hin.
    { eapply elem_of_sublist; [apply sublist_drop | apply list_elem_of_In; exact Hx]. }
    destruct (filterR_spec _ _ _ Hf x Hin) as [Hstored Hage].
    exists x. split; [|split; [exact Hvalid|split; [|reflexivity]]].
    + unfold stored, getAll in *. simpl.
      destruct (getItem_throws f); [inversion Hstored | exact Hstored].
    + assert (is_Some (keyOf x)) as [k Hk] by (apply validItem_keyed; exact Hvalid).
      destruct x; try discriminate. simpl in Hage. injection Hage as Hage. exact Hage.
Qed.

(** X17.  A [null] entry in the stored array stops the store from writing.
    With [null] first, every [saveProgress] rejects; with [null] anywhere,
    every [clearProgress] with a non-empty id and every [pruneOldEntries] with
    a positive age rejects; each time the medium is left as it is.
    [clearAll] still empties it. *)
Theorem null_entry_blocks_writes (f : Faults) (type : ContentType) (id : string)
    (pos dur maxAgeDays : number) (now : Z) (items : list JSV) :
  getItem_throws f = None ->
  JNull ∈ items ->
  let ls := Some (Json (JArr items)) in
  (forall rest, items = JNull :: rest ->
     exists e, saveProgress f type id (JNum pos) (JNum dur) now ls = (Throw e, ls)) /\
  (id <> "" -> exists e, clearProgress f type id ls = (Throw e, ls)) /\
  (le0 maxAgeDays = false ->
     exists e, pruneOldEntries ageInRange f maxAgeDays now ls = (Throw e, ls)) /\
  (removeItem_throws f = None -> clearAll f ls = (Ok tt, None)).
Proof.
  intros Hget Hnull ls.
  assert (getAll f ls = items) as Hall.
  { unfold getAll. rewrite Hget. reflexivity. }
  split; [|split; [|split]].
  - intros rest ->. unfold saveProgress. rewrite Hall. simpl. eexists. reflexivity.
  - intros Hid. unfold clearProgress.
    assert (negb (truthy (JStr id)) = false) as ->.
    { simpl. destruct (String.eqb_spec id ""); [contradiction|reflexivity]. }
    rewrite Hall.
    edestruct (filterR_throws (fun item => let* b := sameKey type id item in Ok (negb b))
                 items JNull) as [e ->]; [exact Hnull | reflexivity |].
    eexists. reflexivity.
  - intros Hage. unfold pruneOldEntries. rewrite Hage, Hall.
    edestruct (filterR_throws
                 (fun item => let* ts := getProp item "timestamp" in
                              Ok (ageInRange now maxAgeDays ts))
                 items JNull) as [e ->]; [exact Hnull | reflexivity |].
    eexists. reflexivity.
  - intros Hrm. unfold clearAll. rewrite Hrm. reflexivity.
Qed.

End ClearingAndPruning.

Lemma clearProgress_then_getProgress_witness :
  (clearProgress noFaults movie "42"
     (Some (Json (JArr [newEntry movie "42" (num 120) (num 3600) 1])))).1 = Ok tt.
Proof.
  refine (proj1 (clearProgress_then_getProgress (fun _ => NaN) (fun _ => NaN) movie "42"
            (Some (Json (JArr [newEntry movie "42" (num 120) (num 3600) 1]))) _ _)).
  - split; [repeat constructor; eexists; reflexivity | simpl; apply NoDup_singleton].
  - discriminate.
Defined.

Lemma pruneOldEntries_only_removes_witness :
  pruneOldEntries (fun _ _ _ => true) noFaults (num 0) 5 None =
  (Throw (ErrorObj "Error" "Invalid maxAgeDays value"), None).
Proof.
  refine (proj1 (pruneOldEntries_only_removes (fun _ _ _ => true) noFaults (num 0) 5 None) _).
  reflexivity.
Defined.

Lemma null_entry_blocks_writes_witness :
  exists e,
    saveProgress noFaults movie "42" (JNum (num 120)) (JNum (num 3600)) 1
      (Some (Json (JArr [JNull]))) = (Throw e, Some (Json (JArr [JNull]))).
Proof.
  refine (proj1 (null_entry_blocks_writes (fun _ _ _ => true) noFaults movie "42"
            (num 120) (num 3600) (num 30) 1 [JNull] _ _) [] _).
  - reflexivity.
  - apply list_elem_of_here.
  - reflexivity.
Defined.

(** X18.  When the medium cannot be read as an array ([getItem] throws, the
    key is absent, the text is not JSON or not an array), [saveProgress]
    treats the store as empty: if the write goes through, the medium holds
    the new record alone, whatever it held before. *)
Theorem saveProgress_overwrites_unreadable_medium (f : Faults) (type : ContentType)
    (id : string) (pos dur : number) (now : Z) (ls : LocalStorage) :
  getItem_throws f <> None \/ ls = None \/ ls = Some NotJson \/
    (exists v, ls = Some (Json v) /\ forall items, v <> JArr items) ->
  setItem_throws f = None ->
  saveProgress f type id (JNum pos) (JNum dur) now ls =
  (Ok tt, Some (Json (JArr [jsonClone (newEntry type id pos dur now)]))).
Proof.
  intros Hread Hset.
  assert (getAll f ls = []) as Hall.
  { unfold getAll. destruct (getItem_throws f) as [e|]; [reflexivity|].
    destruct Hread as [Hf | [-> | [-> | (v & -> & Hv)]]]; try done.
    destruct v; try reflexivity. exfalso. eapply Hv. reflexivity. }
  unfold saveProgress. rewrite Hall. cbn [findIndex app].
  unfold saveAll. rewrite Hset. cbn [sliceLast length Nat.sub drop List.filter].
  unfold sliceLast. simpl drop. simpl List.filter.
  rewrite validItem_newEntry. reflexivity.
Qed.

Lemma saveProgress_overwrites_unreadable_medium_witness :
  saveProgress (mkFaults (Some (ErrorObj "SecurityError" "denied")) None None)
    movie "42" (JNum (num 120)) (JNum (num 3600)) 9
    (Some (Json (JArr [newEntry series "7" (num 30) (num 60) 1]))) =
  (Ok tt, Some (Json (JArr [jsonClone (newEntry movie "42" (num 120) (num 3600) 9)]))).
Proof.
  refine (saveProgress_overwrites_unreadable_medium
            (mkFaults (Some (ErrorObj "SecurityError" "denied")) None None)
            movie "42" (num 120) (num 3600) 9
            (Some (Json (JArr [newEntry series "7" (num 30) (num 60) 1]))) _ _).
  - left. discriminate.
  - reflexivity.
Defined.

(** X19.  A write that is rejected leaves the medium untouched: whenever
    [saveProgress], [clearProgress], [clearAll] or [pruneOldEntries] ends
    in an exception, the medium afterwards is the medium before. *)
Theorem rejected_write_leaves_medium (ageInRange : Z -> number -> JSV -> bool)
    (f : Faults) (type : ContentType) (id : string) (position duration : JSV)
    (maxAgeDays : number) (now : Z) (ls : LocalStorage) :
  (forall e, (saveProgress f type id position duration now ls).1 = Throw e ->
             (saveProgress f type id position duration now ls).2 = ls) /\
  (forall e, (clearProgress f type id ls).1 = Throw e ->
             (clearProgress f type id ls).2 = ls) /\
  (forall e, (clearAll f ls).1 = Throw e -> (clearAll f ls).2 = ls) /\
  (forall e, (pruneOldEntries ageInRange f maxAgeDays now ls).1 = Throw e ->
             (pruneOldEntries ageInRange f maxAgeDays now ls).2 = ls).
Proof.
  assert (forall d e, (saveAll f d ls).1 = Throw e -> (saveAll f d ls).2 = ls) as Hsave.
  { intros d e. unfold saveAll. destruct d; try done. destruct (setItem_throws f); done. }
  split; [|split; [|split]]; intros e.
  - unfold saveProgress. destruct position; try done. destruct duration; try done.
    destruct (findIndex _ _); [apply Hsave | done].
  - unfold clearProgress. destruct (negb _); [done|].
    destruct (filterR _ _); [apply Hsave | done].
  - unfold clearAll. destruct (removeItem_throws f); done.
  - unfold pruneOldEntries. destruct (le0 _); [done|].
    destruct (filterR _ _); [apply Hsave | done].
Qed.
